(** * Video portal (server.js and its sibling variant): model and properties

    The development embeds the request handlers of [server.js] and of the
    second copy of the server kept in the repository (called the variant
    below), and states the properties of the slug allocator, the access
    guard, the host filter, the record store helpers and the upload and
    delete routes over that embedding.

    Strings are sequences of code units below 256, which is the range of HTTP
    header values, environment values and slugs; on that range [trim] and
    [toLowerCase] act code unit by code unit exactly as written here. *)

From stdpp Require Import gmap strings list pretty.
From Stdlib Require Import Ascii String Sorted.

(** ** JavaScript string primitives used by the server *)

Module JS.

(** Truthiness of a string value: the empty string is falsy. *)
Definition truthy (s : string) : bool := negb (bool_decide (s = "")).

(** A possibly [undefined] string value is falsy when undefined or empty. *)
Definition truthy_opt (o : option string) : bool :=
  match o with Some s => truthy s | None => false end.

(** [a || b] on possibly undefined strings. *)
Definition or_else (a b : option string) : option string :=
  if truthy_opt a then a else b.

(** [a || ""] : the last link of an [||] chain that ends in a literal. *)
Definition or_empty (a : option string) : string :=
  match a with Some s => s | None => "" end.

Definition chars (s : string) : list ascii := list_ascii_of_string s.
Definition of_chars (l : list ascii) : string := string_of_list_ascii l.

(** White space and line terminators below code unit 256. *)
Definition is_ws (c : ascii) : bool :=
  let n := nat_of_ascii c in
  bool_decide (n = 9)%nat || bool_decide (n = 10)%nat
  || bool_decide (n = 11)%nat || bool_decide (n = 12)%nat
  || bool_decide (n = 13)%nat || bool_decide (n = 32)%nat
  || bool_decide (n = 160)%nat.

Fixpoint drop_ws (l : list ascii) : list ascii :=
  match l with
  | c :: l' => if is_ws c then drop_ws l' else l
  | [] => []
  end.

(** [s.trim()] *)
Definition trim (s : string) : string :=
  of_chars (rev (drop_ws (rev (drop_ws (chars s))))).

Definition lower_char (c : ascii) : ascii :=
  let n := nat_of_ascii c in
  if bool_decide (65 ≤ n ≤ 90)%nat then ascii_of_nat (n + 32)
  else if bool_decide (192 ≤ n ≤ 222 ∧ n ≠ 215)%nat then ascii_of_nat (n + 32)
  else c.

(** [s.toLowerCase()] *)
Definition toLowerCase (s : string) : string :=
  of_chars (lower_char <$> chars s).

(** [s.split(sep)] for a one-character separator: [cur] holds the piece
    being read, reversed. *)
Fixpoint split_go (sep : ascii) (cur : list ascii) (l : list ascii)
  : list string :=
  match l with
  | [] => [of_chars (rev cur)]
  | c :: l' =>
      if bool_decide (c = sep) then of_chars (rev cur) :: split_go sep [] l'
      else split_go sep (c :: cur) l'
  end.

Definition split (sep : ascii) (s : string) : list string :=
  split_go sep [] (chars s).

(** [s.split(sep)[0]] : the split of any string has a first piece. *)
Definition split_first (sep : ascii) (s : string) : string :=
  match split sep s with
  | p :: _ => p
  | [] => ""
  end.

(** [s.startsWith(p)] and [s.endsWith(p)] *)
Definition startsWith (s p : string) : bool :=
  bool_decide (chars p `prefix_of` chars s).
Definition endsWith (s p : string) : bool :=
  bool_decide (chars p `suffix_of` chars s).

(** [s.slice(1)] *)
Definition slice1 (s : string) : string :=
  match s with
  | String _ s' => s'
  | EmptyString => ""
  end.

End JS.

(** ** Requests *)

Inductive route :=
  | Home
  | Watch (slug : string)
  | Admin
  | AdminUpload
  | AdminDelete (slug : string)
  | Healthz
  | SwJs
  | Unmatched.

(** The file part of a multipart upload, as multer sees it. *)
Record file_part := FilePart {
  mimetype : string;
  file_size : N;                       (* file.size, in bytes *)
  content : string
}.

(** The text fields a form can carry. *)
Record form_fields := FormFields {
  key_field : option string;
  title_field : option string;
  description_field : option string;
  fullUrl_field : option string
}.

Definition no_fields : form_fields := FormFields None None None None.

(** The body of a request.  A urlencoded or JSON body (or none) is read by
    [express.urlencoded] and [express.json], which run before every route and
    leave the fields in [req.body].  A multipart body is read by nobody until
    multer runs, and multer is the second handler of the upload route only:
    until then [req.body] is empty. *)
Inductive body :=
  | Parsed (fields : form_fields)
  | Multipart (fields : form_fields) (file : option file_part).

(** Key values are strings here.  The query and body parsers can also
    deliver arrays and objects; those are not in this type. *)
Record request := Request {
  req_route : route;
  x_forwarded_host : option string;   (* req.headers["x-forwarded-host"] *)
  host : option string;               (* req.headers.host *)
  query_key : option string;          (* req.query.key *)
  x_admin_key : option string;        (* req.get("x-admin-key") *)
  req_body : body
}.

(** [req.body.key] where no multer has run: in checkAdmin, which comes
    before multer on the upload route, and in the delete handler. *)
Definition body_key (req : request) : option string :=
  match req_body req with
  | Parsed fields => key_field fields
  | Multipart _ _ => None
  end.

Definition sent_fields (req : request) : form_fields :=
  match req_body req with
  | Parsed fields => fields
  | Multipart fields _ => fields
  end.

(** [req.body] in the upload handler, after multer: the text fields of a
    multipart form, or the parsed body that multer left alone. *)
Definition form_key (req : request) : option string :=
  key_field (sent_fields req).
Definition form_title (req : request) : option string :=
  title_field (sent_fields req).
Definition form_description (req : request) : option string :=
  description_field (sent_fields req).
Definition form_fullUrl (req : request) : option string :=
  fullUrl_field (sent_fields req).

(** The file part named "video" of a multipart body; multer passes any
    other body on untouched, with no file. *)
Definition video (req : request) : option file_part :=
  match req_body req with
  | Parsed _ => None
  | Multipart _ file => file
  end.

Arguments body_key : simpl never.
Arguments form_key : simpl never.
Arguments form_title : simpl never.
Arguments form_description : simpl never.
Arguments form_fullUrl : simpl never.
Arguments video : simpl never.

(** ** Host filter of server.js (allow-list mode) *)

Module HostFilter.

(** [RAW_HOSTS.split(",").map(s => s.trim().toLowerCase()).filter(Boolean)] *)
Definition ALLOW (RAW_HOSTS : string) : list string :=
  filter (λ p, Is_true (JS.truthy p))
    ((λ s, JS.toLowerCase (JS.trim s)) <$> JS.split "," RAW_HOSTS).

(** One pattern against a host:
    [p.startsWith("*.") ? host.endsWith(p.slice(1)) : host === p] *)
Definition pattern_matches (h p : string) : bool :=
  if JS.startsWith p "*." then JS.endsWith h (JS.slice1 p)
  else bool_decide (h = p).

(** [ALLOW.some(...)] *)
Definition allowHost (allow : list string) (h : string) : bool :=
  existsb (pattern_matches h) allow.

(** The host the middleware looks at:
    [(req.headers["x-forwarded-host"] || req.headers.host || "")
       .split(":")[0].toLowerCase()] *)
Definition effective_host (req : request) : string :=
  JS.toLowerCase
    (JS.split_first ":"
       (JS.or_empty (JS.or_else (x_forwarded_host req) (host req)))).

(** The middleware is installed only when [ALLOWED_HOSTS], trimmed, is not
    empty; [true] lets the request through to the routes. *)
Definition passes (ALLOWED_HOSTS : string) (req : request) : bool :=
  let RAW_HOSTS := JS.trim ALLOWED_HOSTS in
  if JS.truthy RAW_HOSTS then allowHost (ALLOW RAW_HOSTS) (effective_host req)
  else true.

(** The variant has the other policy: a fixed set of hosts compared by
    equality, and a permanent redirect to the canonical origin for any other
    host.  [originalUrl] is [req.originalUrl]. *)
Definition ALLOWED : list string :=
  ["shortmovies.xyz"; "www.shortmovies.xyz"; "localhost"; "127.0.0.1"].

Definition redirect_target (originalUrl : string) : string :=
  "https://shortmovies.xyz" +:+
  (if JS.truthy originalUrl then originalUrl else "/").

Definition canonical_redirect (req : request) (originalUrl : string)
  : option (nat * string) :=
  if bool_decide (effective_host req ∈ ALLOWED) then None
  else Some (301, redirect_target originalUrl).

End HostFilter.

(** ** Errors, rows and the remote services

    The record store and the blob store are remote; the server reaches them
    through the Supabase client.  A client call settles in one of three ways,
    decided by the state of the link when the call is made: the service
    answers; the call fails and the client reports it in the [error] field of
    its result (what the client does for a failed query or a failed fetch);
    or the promise itself rejects.  The last is what a [try]/[catch] around an
    [await] sees. *)

Record js_error := JsError {
  message : string;      (* err.message *)
  printed : string       (* String(err) *)
}.

Record row := Row {
  id : N;                (* assigned by the table *)
  created_at : N;        (* default now() of the table, in milliseconds *)
  slug : string;
  title : string;
  description : string;
  file_path : string;
  url : string;
  fullUrl : string
}.

(** The result object [{ data, error }] of a client call. *)
Record response (A : Type) := Response {
  data : option A;
  error : option js_error
}.
Arguments Response {A} _ _.
Arguments data {A} _.
Arguments error {A} _.

(** The outcome of awaiting a promise. *)
Inductive settled (A : Type) :=
  | Fulfilled (a : A)
  | Rejected (e : js_error).
Arguments Fulfilled {A} _.
Arguments Rejected {A} _.

Inductive link_status :=
  | Up
  | Failing (e : js_error)     (* reported in the result's error field *)
  | Rejecting (e : js_error).  (* the promise rejects *)

Inductive call :=
  | SelectOrdered (column : string)
  | SelectSlug (s : string)
  | InsertRow (s : string)
  | DeleteSlug (s : string)
  | BlobUpload (path : string)
  | BlobRemove (path : string).

(** What is fixed for one deployment: the environment variables the guard
    and the host filter read, the schema of the table [videos] where the code
    depends on it, and the behaviour of the link, call by call. *)
Record deployment := Deployment {
  ADMIN_KEY : string;
  ALLOWED_HOSTS : string;
  (** the name of the timestamp column of the table, if it has one *)
  timestamp_column : option string;
  (** whether the table refuses a second row with the same slug *)
  slug_unique : bool;
  (** the state of the link at the n-th remote call *)
  link : nat → link_status;
  (** whether the uploaded temporary file can be read back *)
  tmp_readable : bool
}.

Record world := World {
  rows : list row;               (* table videos, in insertion order *)
  next_id : N;
  blobs : gmap string string;    (* bucket: path to bytes *)
  clock : N;                     (* Date.now() *)
  calls : list call;             (* remote calls so far, oldest first *)
  console : list string          (* console.error lines, oldest first *)
}.

Definition with_rows (f : list row → list row) (w : world) : world :=
  World (f (rows w)) (next_id w) (blobs w) (clock w) (calls w) (console w).
Definition with_blobs (f : gmap string string → gmap string string)
    (w : world) : world :=
  World (rows w) (next_id w) (f (blobs w)) (clock w) (calls w) (console w).
Definition bump_id (w : world) : world :=
  World (rows w) (next_id w + 1)%N (blobs w) (clock w) (calls w) (console w).
Definition record_call (c : call) (w : world) : world :=
  World (rows w) (next_id w) (blobs w) (clock w) (calls w ++ [c]) (console w).
Definition console_error (line : string) (w : world) : world :=
  World (rows w) (next_id w) (blobs w) (clock w) (calls w) (console w ++ [line]).

Module Supabase.
Section Remote.
Variable d : deployment.

(** Runs one remote call: notes it in the trace and lets [answer] compute
    the service's reply when the link is up. *)
Definition remote {A} (c : call)
    (answer : world → response A * world) (w : world)
  : settled (response A) * world :=
  let w' := record_call c w in
  match link d (List.length (calls w)) with
  | Up => let '(r, w'') := answer w' in (Fulfilled r, w'')
  | Failing e => (Fulfilled (Response None (Some e)), w')
  | Rejecting e => (Rejected e, w')
  end.

(** Rows by decreasing [key]; rows with equal keys keep their order. *)
Fixpoint place_desc (key : row → N) (r : row) (l : list row) : list row :=
  match l with
  | [] => [r]
  | r' :: l' =>
      if (key r' <=? key r)%N then r :: l
      else r' :: place_desc key r l'
  end.

Definition order_desc (key : row → N) (l : list row) : list row :=
  foldr (place_desc key) [] l.

Definition unknown_column (c : string) : js_error :=
  JsError ("column videos." +:+ c +:+ " does not exist") "[object Object]".

(** [from("videos").select("*").order(column, { ascending: false })] *)
Definition select_ordered (column : string)
  : world → settled (response (list row)) * world :=
  remote (SelectOrdered column) (λ w,
    if bool_decide (column = "id")
    then (Response (Some (order_desc id (rows w))) None, w)
    else if bool_decide (timestamp_column d = Some column)
    then (Response (Some (order_desc created_at (rows w))) None, w)
    else (Response None (Some (unknown_column column)), w)).

(** [from("videos").select("*").eq("slug", s).limit(1).maybeSingle()] *)
Definition select_slug (s : string)
  : world → settled (response row) * world :=
  remote (SelectSlug s) (λ w,
    (Response (head (filter (λ r, slug r = s) (rows w))) None, w)).

Definition duplicate_slug : js_error :=
  JsError "duplicate key value violates unique constraint"
          "[object Object]".

(** [from("videos").insert([r])] : the table assigns [id] and
    [created_at]; the fields of [r] for them are ignored. *)
Definition table_insert (r : row) : world → settled (response unit) * world :=
  remote (InsertRow (slug r)) (λ w,
    if slug_unique d && bool_decide (slug r ∈ slug <$> rows w)
    then (Response None (Some duplicate_slug), w)
    else
      let r' := Row (next_id w) (clock w) (slug r) (title r)
                    (description r) (file_path r) (url r) (fullUrl r) in
      (Response None None, bump_id (with_rows (λ l, l ++ [r']) w))).

Definition not_single : js_error :=
  JsError "JSON object requested, multiple (or no) rows returned"
          "[object Object]".

(** [from("videos").delete().eq("slug", s).select("file_path").maybeSingle()]:
    the data is the [file_path] of the deleted row, or null when no row
    matched; a request that matches several rows is refused as a whole. *)
Definition table_delete (s : string)
  : world → settled (response string) * world :=
  remote (DeleteSlug s) (λ w,
    match filter (λ r, slug r = s) (rows w) with
    | [] => (Response None None, w)
    | [r] => (Response (Some (file_path r)) None,
              with_rows (filter (λ r, slug r ≠ s)) w)
    | _ => (Response None (Some not_single), w)
    end).

(** [storage.from(bucket).upload(path, bytes, { upsert: true })] *)
Definition storage_upload (path bytes : string)
  : world → settled (response unit) * world :=
  remote (BlobUpload path) (λ w,
    (Response (Some ()) None, with_blobs (insert path bytes) w)).

(** [storage.from(bucket).remove([path])] *)
Definition storage_remove (path : string)
  : world → settled (response unit) * world :=
  remote (BlobRemove path) (λ w,
    (Response (Some ()) None, with_blobs (delete path) w)).

End Remote.
End Supabase.

(** ** Handlers as state-passing computations

    A handler runs against the world and either returns, throws, or (for the
    slug loop, which the model runs on fuel) runs out of fuel. *)

Inductive result (A : Type) :=
  | Val (a : A)
  | Thrown (e : js_error)
  | OutOfFuel.
Arguments Val {A} _.
Arguments Thrown {A} _.
Arguments OutOfFuel {A}.

Definition M (A : Type) : Type := world → result A * world.

Definition ret {A} (a : A) : M A := λ w, (Val a, w).
Definition throw {A} (e : js_error) : M A := λ w, (Thrown e, w).
Definition bind {A B} (m : M A) (k : A → M B) : M B :=
  λ w, match m w with
       | (Val a, w') => k a w'
       | (Thrown e, w') => (Thrown e, w')
       | (OutOfFuel, w') => (OutOfFuel, w')
       end.

Notation "'let*' x ':=' m 'in' k" := (bind m (λ x, k))
  (at level 10, x name, m at level 100, k at level 200,
   format "'[v' 'let*'  x  ':='  m  'in'  '/' k ']'").
Notation "'do' m 'in' k" := (bind m (λ _, k))
  (at level 10, m at level 100, k at level 200,
   format "'[v' 'do'  m  'in'  '/' k ']'").

(** [await p] *)
Definition await {A} (p : world → settled A * world) : M A :=
  λ w, match p w with
       | (Fulfilled a, w') => (Val a, w')
       | (Rejected e, w') => (Thrown e, w')
       end.

(** [try { m } catch (e) { h e }] *)
Definition try_catch {A} (m : M A) (h : js_error → M A) : M A :=
  λ w, match m w with
       | (Thrown e, w') => h e w'
       | other => other
       end.

(** [p.catch(() => {})] followed by an [await] whose value is dropped. *)
Definition await_ignoring {A} (p : world → settled A * world) : M unit :=
  λ w, (Val (), snd (p w)).

Definition log_error (line : string) : M unit :=
  λ w, (Val (), console_error line w).

Definition now : M N := λ w, (Val (clock w), w).

(** ** Replies *)

Inductive reply :=
  | Send (status : nat) (body : string)          (* res.status(n).send(body) *)
  | Redirect (status : nat) (location : string)  (* res.redirect(...) *)
  | Render (view : string) (videos : list row)   (* res.render(view, ...) *)
  | Json                                         (* the health report *)
  | SendFile (name : string)
  (** Express's built-in handler, reached through [next(err)] when no
      error-handling middleware is registered. *)
  | DefaultError (status : nat) (e : js_error).

(** What a middleware does with a request. *)
Inductive middleware_outcome (A : Type) :=
  | Next (a : A)                (* next() *)
  | NextErr (e : js_error)      (* next(err) *)
  | Answer (r : reply).
Arguments Next {A} _.
Arguments NextErr {A} _.
Arguments Answer {A} _.

(** ** Record store helpers of server.js *)

Section Helpers.
Variable d : deployment.

(** [data || []] *)
Definition or_nil (o : option (list row)) : list row :=
  match o with Some l => l | None => [] end.

(** readVideos of server.js *)
Definition readVideos : M (list row) :=
  try_catch
    (let* r := await (Supabase.select_ordered d "created_at") in
     ret (or_nil (data r)))
    (λ _,
     let* r := await (Supabase.select_ordered d "id") in
     ret (or_nil (data r))).

(** readVideos of the variant *)
Definition readVideos_variant : M (list row) :=
  let* r := await (Supabase.select_ordered d "createdAt") in
  match error r, data r with
  | None, Some l => ret l
  | _, _ =>
      let* r2 := await (Supabase.select_ordered d "id") in
      match error r2 with
      | Some e => do log_error ("readVideos error: " +:+ printed e) in ret []
      | None => ret (or_nil (data r2))
      end
  end.

(** getVideoBySlug: a failed query is logged and answered like an absent
    row. *)
Definition getVideoBySlug (s : string) : M (option row) :=
  let* r := await (Supabase.select_slug d s) in
  match error r with
  | Some e =>
      do log_error ("getVideoBySlug error: " +:+ printed e) in ret None
  | None => ret (data r)
  end.

(** insertVideo *)
Definition insertVideo (r : row) : M unit :=
  let* res := await (Supabase.table_insert d r) in
  match error res with
  | Some e => throw e
  | None => ret ()
  end.

(** deleteVideoBySlug: the [file_path] of the deleted row, or null *)
Definition deleteVideoBySlug (s : string) : M (option string) :=
  let* res := await (Supabase.table_delete d s) in
  match error res with
  | Some e => throw e
  | None => ret (data res)
  end.

(** ** Admin guard *)

(** The key checkAdmin compares:
    [(req.query.key || req.body.key || req.get("x-admin-key") || "").trim()] *)
Definition supplied_key (req : request) : string :=
  JS.trim (JS.or_empty
    (JS.or_else (JS.or_else (query_key req) (body_key req))
                (x_admin_key req))).

(** [ADMIN_KEY && key === ADMIN_KEY] *)
Definition checkAdmin (req : request) : bool :=
  JS.truthy (ADMIN_KEY d) && bool_decide (supplied_key req = ADMIN_KEY d).

Definition forbidden_admin : reply := Send 403 "Forbidden: Admin key required".

End Helpers.

(** The guard as the spec names it: [authorize supplied configured]. *)
Definition authorize (supplied configured : string) : bool :=
  JS.truthy configured && bool_decide (JS.trim supplied = configured).

(** ** Slug allocation

    The loop of the upload route, over any existence probe.  [exists_] is the
    value the last probe returned (a row or null) and [i] the next suffix.
    The counter is a JavaScript number; it is exact, and so is this model of
    it, below 2^53, far above the number of rows a table can hold. *)

Definition candidate (base : string) (i : nat) : string :=
  base +:+ "-" +:+ pretty i.

Fixpoint slug_loop {A} (probe : string → M (option A)) (base : string)
    (fuel : nat) (slug_ : string) (exists_ : option A) (i : nat) : M string :=
  match exists_ with
  | Some _ =>
      match fuel with
      | 0 => λ w, (OutOfFuel, w)
      | S fuel' =>
          let slug' := candidate base i in
          let* e := probe slug' in
          slug_loop probe base fuel' slug' e (S i)
      end
  | None => ret slug_
  end.

(** [let slug = base; let exists = await probe(slug); let i = 2; while ...] *)
Definition allocate {A} (probe : string → M (option A)) (fuel : nat)
    (base : string) : M string :=
  let* e := probe base in
  slug_loop probe base fuel base e 2.

(** The sequence base, base-2, base-3, ... counted from 0. *)
Definition nth_candidate (base : string) (k : nat) : string :=
  match k with
  | 0 => base
  | S _ => candidate base (S k)
  end.

(** An existence check that answers from a fixed set of taken slugs. *)
Definition taken_probe (taken : gset string) (s : string) : M (option unit) :=
  ret (if bool_decide (s ∈ taken) then Some () else None).

(** ** The upload and delete routes *)

Definition allowed_types : list string := ["video/mp4"; "video/webm"; "video/ogg"].
Definition fileSize_limit : N := 1024 * 1024 * 300.

(** The multer middleware [upload.single("video")]: the file filter looks at
    the declared type, then the size limit applies while the file is stored;
    either failure is handed to [next(err)]. *)
Definition upload_single (req : request) : middleware_outcome (option file_part) :=
  match video req with
  | None => Next None
  | Some f =>
      if bool_decide (mimetype f ∈ allowed_types) then
        if (fileSize_limit <? file_size f)%N
        then NextErr (JsError "File too large" "MulterError: File too large")
        else Next (Some f)
      else NextErr (JsError "Format video harus mp4/webm/ogg"
                            "Error: Format video harus mp4/webm/ogg")
  end.

(** The status Express's built-in error handler answers with: the error's own
    status when it has one in 400..599, else 500.  The errors of this program
    carry none. *)
Definition express_default_error (e : js_error) : reply := DefaultError 500 e.

Section Routes.
Variable d : deployment.
(** Functions of the libraries the server imports. *)
Variable slugify : string → string.              (* slugify(t, {lower, strict}) *)
Variable mime_extension : string → option string. (* mime.extension *)
Variable getPublicUrl : string → string.
Variable encodeURIComponent : string → string.

(** [slugify(title, ...) || "video"] in server.js *)
Definition base_token (t : string) : string :=
  let b := slugify t in if JS.truthy b then b else "video".

(** the variant has no fallback *)
Definition base_token_variant (t : string) : string := slugify t.

(** [String(err.message || err)] *)
Definition error_text (e : js_error) : string :=
  if JS.truthy (message e) then message e else printed e.

(** [/admin?key=${encodeURIComponent(req.query.key || req.body.key || "")}]
    in the delete handler, where [req.body] is what the guard saw. *)
Definition admin_location (req : request) : string :=
  "/admin?key=" +:+
  encodeURIComponent (JS.or_empty (JS.or_else (query_key req) (body_key req))).

(** The same expression in the upload handler, where multer has filled
    [req.body] with the form's fields. *)
Definition upload_location (req : request) : string :=
  "/admin?key=" +:+
  encodeURIComponent (JS.or_empty (JS.or_else (query_key req) (form_key req))).

Definition readFile (f : file_part) : M string :=
  if tmp_readable d then ret (content f)
  else throw (JsError "ENOENT: no such file or directory"
                      "Error: ENOENT: no such file or directory").

(** The body of the upload handler; [base] is [base_token] in server.js and
    [base_token_variant] in the variant. *)
Definition upload_handler (base : string → string) (fuel : nat)
    (req : request) (file : option file_part) : M reply :=
  try_catch
    (match form_title req, file with
     | Some t, Some f =>
         if JS.truthy t then
           let* slug_ := allocate (getVideoBySlug d) fuel (base t) in
           let ext := default "mp4" (mime_extension (mimetype f)) in
           let* t0 := now in
           let filePath :=
             "trailers/" +:+ pretty t0 +:+ "_" +:+ slug_ +:+ "." +:+ ext in
           let* fileBuffer := readFile f in
           let* up := await (Supabase.storage_upload d filePath fileBuffer) in
           match error up with
           | Some upErr => throw upErr
           | None =>
               let publicUrl := getPublicUrl filePath in
               do insertVideo d
                    (Row 0 0 slug_ (JS.trim t)
                       (JS.trim (JS.or_empty (form_description req)))
                       filePath publicUrl
                       (JS.trim (JS.or_empty (form_fullUrl req)))) in
               ret (Redirect 302 (upload_location req))
           end
         else throw (JsError "Judul & file wajib." "Error: Judul & file wajib.")
     | _, _ => throw (JsError "Judul & file wajib." "Error: Judul & file wajib.")
     end)
    (λ err,
       do log_error (printed err) in
       ret (Send 400 (error_text err))).

(** The delete handler. *)
Definition delete_handler (s : string) (req : request) : M reply :=
  try_catch
    (let* deleted := deleteVideoBySlug d s in
     do (if JS.truthy_opt deleted
         then await_ignoring (Supabase.storage_remove d (JS.or_empty deleted))
         else ret ()) in
     ret (Redirect 302 (admin_location req)))
    (λ err,
       do log_error (printed err) in
       ret (Send 400 "Gagal hapus")).

(** [app.post("/admin/upload", checkAdmin, upload.single("video"), handler)] *)
Definition upload_route (base : string → string) (fuel : nat)
    (req : request) : M reply :=
  if checkAdmin d req then
    match upload_single req with
    | Next file => upload_handler base fuel req file
    | NextErr e => ret (express_default_error e)
    | Answer r => ret r
    end
  else ret forbidden_admin.

(** The routes, in the order server.js registers them. *)
Definition routes (fuel : nat) (req : request) : M reply :=
  match req_route req with
  | Healthz => ret Json
  | Home => let* videos := readVideos d in ret (Render "home" videos)
  | Watch s =>
      let* v := getVideoBySlug d s in
      match v with
      | None => ret (Send 404 "Video tidak ditemukan")
      | Some r => ret (Render "watch" [r])
      end
  | Admin =>
      if checkAdmin d req
      then let* videos := readVideos d in ret (Render "admin" videos)
      else ret forbidden_admin
  | AdminUpload => upload_route base_token fuel req
  | AdminDelete s =>
      if checkAdmin d req then delete_handler s req else ret forbidden_admin
  | SwJs => ret (SendFile "sw.js")
  | Unmatched => ret (Send 404 "Not found")
  end.

(** server.js as a whole: the host filter, when configured, runs before
    every route. *)
Definition app (fuel : nat) (req : request) : M reply :=
  if HostFilter.passes (ALLOWED_HOSTS d) req then routes fuel req
  else ret (Send 403 "Forbidden host").

End Routes.

(** ** Concrete instances used in the examples

    [slugify_ascii] is what the slugify package computes with
    [{ lower: true, strict: true }] on titles made of letters, digits, white
    space, hyphens and punctuation that its character map does not spell out:
    hyphens count as spaces, everything but letters, digits and white space is
    dropped, the ends are trimmed, each run of white space becomes one hyphen
    and the result is lowercased. *)

Definition is_alnum (c : ascii) : bool :=
  let n := nat_of_ascii c in
  bool_decide (48 ≤ n ≤ 57)%nat || bool_decide (65 ≤ n ≤ 90)%nat
  || bool_decide (97 ≤ n ≤ 122)%nat.

Fixpoint hyphenate (in_run : bool) (l : list ascii) : list ascii :=
  match l with
  | [] => []
  | c :: l' =>
      if JS.is_ws c
      then (if in_run then hyphenate true l' else "-"%char :: hyphenate true l')
      else c :: hyphenate false l'
  end.

Definition slugify_ascii (t : string) : string :=
  let spaced := (λ c, if bool_decide (c = "-"%char) then " "%char else c)
                  <$> JS.chars t in
  let kept := filter (λ c, Is_true (is_alnum c || JS.is_ws c)) spaced in
  let trimmed := JS.chars (JS.trim (JS.of_chars kept)) in
  JS.toLowerCase (JS.of_chars (hyphenate false trimmed)).

Definition mime_extension_std (t : string) : option string :=
  if bool_decide (t = "video/mp4") then Some "mp4"
  else if bool_decide (t = "video/webm") then Some "webm"
  else if bool_decide (t = "video/ogg") then Some "ogv"
  else if bool_decide (t = "image/png") then Some "png"
  else None.

Definition publicUrl_demo (path : string) : string :=
  "https://demo.supabase.co/storage/v1/object/public/videos/" +:+ path.

(** A deployment whose link never fails and whose table has the columns the
    spec lists. *)
Definition demo : deployment :=
  Deployment "secret" "" (Some "created_at") true (λ _, Up) true.

Definition empty_world : world := World [] 1 ∅ 1700000000000 [] [].

Definition blank (r : route) : request :=
  Request r None None None None (Parsed no_fields).

Definition upload_request (key t mime : string) (bytes : N) : request :=
  Request AdminUpload None (Some "localhost:3000") (Some key) None
    (Multipart (FormFields None (Some t) None None)
       (Some (FilePart mime bytes "..."))).

(** Requests and deployments of the examples. *)

Definition cdn_request : request :=
  Request Home (Some "CDN.Example.com:8443") (Some "10.0.0.7:3000")
    None None (Parsed no_fields).

Definition evil_request : request :=
  Request (Watch "my-trailer") None (Some "Evil.com:80")
    None None (Parsed no_fields).

Definition example_hosts : deployment :=
  Deployment "secret" " example.com, *.Example.com " (Some "created_at") true
    (λ _, Up) true.

Definition header_only : request :=
  Request Admin None (Some "localhost") None (Some " secret ")
    (Parsed no_fields).

Definition wrong_query_right_header : request :=
  Request Admin None (Some "localhost") (Some "wrong") (Some "secret")
    (Parsed no_fields).

(** Two readings of an existence probe, for worlds that satisfy [inv] and a
    notion [taken] of which slugs are in use: a faithful probe always answers,
    and answers according to [taken]; a cautious probe may fail, but reports a
    row only for a taken slug. *)
Definition faithful {A} (probe : string → M (option A))
    (inv : world → Prop) (taken : string → Prop) : Prop :=
  ∀ s w, inv w →
    ∃ r w', probe s w = (Val r, w') ∧ inv w' ∧ (is_Some r ↔ taken s).

Definition cautious {A} (probe : string → M (option A))
    (inv : world → Prop) (taken : string → Prop) : Prop :=
  ∀ s w, inv w →
    ∃ r w', probe s w = (r, w') ∧ inv w' ∧ r ≠ OutOfFuel
            ∧ (∀ a, r = Val (Some a) → taken s).

(** A deployment whose link is up at every call. *)
Definition reliable (d : deployment) : Prop := ∀ n, link d n = Up.

(** The table is the same in two worlds. *)
Definition same_table (w w' : world) : Prop :=
  rows w' = rows w ∧ next_id w' = next_id w.

(** The slugs in use in a world. *)
Definition slugs (w : world) : list string := slug <$> rows w.

(** The upload of a title made of punctuation only. *)
Definition punctuation_upload : request :=
  upload_request "secret" "!!!" "video/mp4" 1000.

(** A table of three trailers, the newest inserted first by mistake of the
    clock, so that the two orderings differ. *)
Definition trailer (i t : N) (s : string) : row :=
  Row i t s "My Trailer!" "" ("trailers/" +:+ pretty t +:+ "_" +:+ s +:+ ".mp4")
    (publicUrl_demo ("trailers/" +:+ pretty t +:+ "_" +:+ s +:+ ".mp4")) "".

Definition busy_world : world :=
  World [trailer 1 300 "my-trailer"; trailer 2 100 "my-trailer-2";
         trailer 3 200 "my-trailer-3"]
        4 ∅ 1700000000000 [] [].

(** Deployments that differ from [demo] in one respect: a table without the
    timestamp column, a link that reports a failure at every call, and a link
    that is up for the first call only. *)
Definition no_timestamp : deployment :=
  Deployment "secret" "" None true (λ _, Up) true.

Definition timeout_error : js_error :=
  JsError "TypeError: fetch failed" "[object Object]".

Definition link_down : deployment :=
  Deployment "secret" "" (Some "created_at") true (λ _, Failing timeout_error)
    true.

Definition storage_down : deployment :=
  Deployment "secret" "" (Some "created_at") true
    (λ n, match n with 0 => Up | _ => Rejecting timeout_error end) true.

Definition watch_request (s : string) : request :=
  Request (Watch s) None (Some "localhost:3000") None None
    (Parsed no_fields).

Definition delete_request (key s : string) : request :=
  Request (AdminDelete s) None (Some "localhost:3000") (Some key) None
    (Parsed no_fields).

(** What keeps slugs apart in a deployment: the table refuses duplicates, or
    every existence probe is answered. *)
Definition guarded (d : deployment) : Prop :=
  slug_unique d = true ∨ reliable d.

(** The ways a handler can change the table: not at all, by appending one
    row that takes the next id, or by removing the rows of one slug. *)
Definition table_effect (d : deployment) (w w' : world) : Prop :=
  same_table w w'
  ∨ (∃ r, rows w' = rows w ++ [r] ∧ id r = next_id w
          ∧ next_id w' = (next_id w + 1)%N
          ∧ (guarded d → slug r ∉ slugs w))
  ∨ (∃ s, rows w' = filter (λ r, slug r ≠ s) (rows w)
          ∧ next_id w' = next_id w).


(** A deployment outside [guarded]: the table has no unique constraint on
    slug and the first remote call fails. *)
Definition unguarded_flaky : deployment :=
  Deployment "secret" "" (Some "created_at") false
    (λ n, match n with 0 => Failing timeout_error | _ => Up end) true.

Definition scenario_upload : request :=
  upload_request "secret" "My Trailer!" "video/mp4" 1000.

(** The routes behind the admin guard. *)
Definition admin_route (r : route) : Prop :=
  r = Admin ∨ r = AdminUpload ∨ ∃ s, r = AdminDelete s.

(** ** The site's base URL *)

Fixpoint drop_slashes (l : list ascii) : list ascii :=
  match l with
  | c :: l' => if bool_decide (c = "/"%char) then drop_slashes l' else l
  | [] => []
  end.

(** [const BASE_URL = (process.env.BASE_URL || "").replace(/\/+$/, "")] *)
Definition BASE_URL (env : option string) : string :=
  JS.of_chars (rev (drop_slashes (rev (JS.chars (JS.or_empty env))))).

(** A possibly undefined string inside a template literal. *)
Definition interpolate (o : option string) : string :=
  match o with Some s => s | None => "undefined" end.

(** [res.locals.site.baseUrl = BASE_URL || `${req.protocol}://${req.get("host")}`] *)
Definition site_baseUrl (base_url protocol : string) (req : request) : string :=
  if JS.truthy base_url then base_url
  else protocol +:+ "://" +:+ interpolate (host req).

(** [const shareUrl = `${res.locals.site.baseUrl}/watch/${v.slug}`] *)
Definition shareUrl (base_url protocol : string) (req : request) (v : row)
  : string :=
  site_baseUrl base_url protocol req +:+ "/watch/" +:+ slug v.

(** ** Notions used to state further properties *)

(** Lowercase letters, digits and the hyphen: what a slug is made of. *)
Definition url_safe_char (c : ascii) : bool :=
  let n := nat_of_ascii c in
  bool_decide (48 ≤ n ≤ 57)%nat || bool_decide (97 ≤ n ≤ 122)%nat
  || bool_decide (n = 45)%nat.

Definition url_safe (s : string) : bool := forallb url_safe_char (JS.chars s).

(** The remote calls that write. *)
Definition writes (c : call) : bool :=
  match c with
  | InsertRow _ | DeleteSlug _ | BlobUpload _ | BlobRemove _ => true
  | SelectOrdered _ | SelectSlug _ => false
  end.

(** The storage path the upload handler builds. *)
Definition storage_path (t : N) (slug_ ext : string) : string :=
  "trailers/" +:+ pretty t +:+ "_" +:+ slug_ +:+ "." +:+ ext.

(** The row the upload handler inserts, as the table stores it: the table
    assigns the id and the timestamp. *)
Definition stored_row (mime_extension : string → option string)
    (getPublicUrl : string → string)
    (w : world) (req : request) (t : string) (f : file_part)
    (slug_ : string) : row :=
  let path := storage_path (clock w) slug_
                (default "mp4" (mime_extension (mimetype f))) in
  Row (next_id w) (clock w) slug_ (JS.trim t)
      (JS.trim (JS.or_empty (form_description req)))
      path (getPublicUrl path)
      (JS.trim (JS.or_empty (form_fullUrl req))).

Definition blank_title_upload : request :=
  Request AdminUpload None (Some "localhost:3000") None (Some "secret")
    (Multipart (FormFields (Some "abc") (Some "   ") None None)
       (Some (FilePart "video/ogg" 10 "..."))).

Definition untitled_png_upload : request :=
  Request AdminUpload None (Some "localhost:3000") (Some "secret") None
    (Multipart no_fields (Some (FilePart "image/png" 10 "png-bytes"))).

(** Nothing was written between two worlds: table and bucket are the same,
    and the remote calls made in between are lookups. *)
Definition read_only (w w' : world) : Prop :=
  rows w' = rows w ∧ next_id w' = next_id w ∧ blobs w' = blobs w
  ∧ ∃ l, calls w' = calls w ++ l ∧ Forall (λ c, writes c = false) l.

(** A list of code units that does not start with [skip]ped ones. *)
Definition starts_clean {A} (skip : A → bool) (l : list A) : Prop :=
  match l with
  | c :: _ => skip c = false
  | [] => True
  end.

(** Requests of the further examples. *)
Definition header_upload : request :=
  Request AdminUpload None (Some "localhost:3000") None (Some "secret")
    (Multipart
       (FormFields (Some "abc") (Some "  My Trailer!  ") (Some " teaser ") None)
       (Some (FilePart "video/webm" 1000 "webm-bytes"))).

Definition form_key_upload : request :=
  Request AdminUpload None (Some "localhost:3000") None None
    (Multipart (FormFields (Some "secret") (Some "My Trailer!") None None)
       (Some (FilePart "video/mp4" 1000 "..."))).

Definition body_key_delete : request :=
  Request (AdminDelete "my-trailer") None (Some "localhost:3000") None None
    (Parsed (FormFields (Some " secret") None None None)).

Definition padded_query : request :=
  Request Admin None None (Some " secret") None (Parsed no_fields).

Definition canonical_host_request : request :=
  Request Home None (Some "WWW.ShortMovies.xyz:443") None None
    (Parsed no_fields).

Definition upper_host_request : request :=
  Request Home None (Some "CDN.EXAMPLE.COM:8443") None None
    (Parsed no_fields).

Definition lower_host_request : request :=
  Request Home None (Some "cdn.example.com:8443") None None
    (Parsed no_fields).

Definition padded_key : deployment :=
  Deployment " secret" "" (Some "created_at") true (λ _, Up) true.

Definition commas_only : deployment :=
  Deployment "secret" " , ," (Some "created_at") true (λ _, Up) true.

Definition insert_down : deployment :=
  Deployment "secret" "" (Some "created_at") true
    (λ n, match n with 2 => Failing timeout_error | _ => Up end) true.

Definition upload_down : deployment :=
  Deployment "secret" "" (Some "created_at") true
    (λ n, match n with 1 => Failing timeout_error | _ => Up end) true.

Definition always_rejecting : deployment :=
  Deployment "secret" "" (Some "created_at") true
    (λ _, Rejecting timeout_error) true.

(** * Properties *)

(** Settles a decidable closed proposition by evaluating its decision. *)
Ltac by_decide := apply (bool_decide_unpack _); vm_compute; exact I.

(** ** Strings *)

Section StringFacts.

Lemma of_chars_chars s : JS.of_chars (JS.chars s) = s.
Proof. apply string_of_list_ascii_of_string. Qed.

Lemma chars_of_chars l : JS.chars (JS.of_chars l) = l.
Proof. apply list_ascii_of_string_of_list_ascii. Qed.

Lemma chars_app a b : JS.chars (a +:+ b) = JS.chars a ++ JS.chars b.
Proof.
  unfold JS.chars. induction a as [|c a IH]; [done|].
  unfold String.app in *. cbn. by rewrite IH.
Qed.

Lemma chars_inj a b : JS.chars a = JS.chars b → a = b.
Proof.
  intros H. rewrite <- (of_chars_chars a), <- (of_chars_chars b).
  by rewrite H.
Qed.

Lemma of_chars_app k l : JS.of_chars (k ++ l) = JS.of_chars k +:+ JS.of_chars l.
Proof.
  apply chars_inj. by rewrite chars_app, !chars_of_chars.
Qed.

Lemma endsWith_spec s p :
  JS.endsWith s p = true ↔ ∃ pre, s = pre +:+ p.
Proof.
  unfold JS.endsWith. rewrite bool_decide_eq_true. split.
  - intros [k Hk]. exists (JS.of_chars k). apply chars_inj.
    by rewrite chars_app, chars_of_chars.
  - intros [pre ->]. exists (JS.chars pre). apply chars_app.
Qed.

Lemma startsWith_spec s p :
  JS.startsWith s p = true ↔ ∃ rest, s = p +:+ rest.
Proof.
  unfold JS.startsWith. rewrite bool_decide_eq_true. split.
  - intros [k Hk]. exists (JS.of_chars k). apply chars_inj.
    by rewrite chars_app, chars_of_chars.
  - intros [rest ->]. exists (JS.chars rest). apply chars_app.
Qed.

Lemma split_go_no_sep sep cur l :
  sep ∉ l → JS.split_go sep cur l = [JS.of_chars (rev cur ++ l)].
Proof.
  revert cur. induction l as [|c l IH]; intros cur Hn; simpl.
  - by rewrite app_nil_r.
  - rewrite bool_decide_eq_false_2 by (intros ->; apply Hn; left).
    rewrite IH by (intros ?; apply Hn; by right).
    simpl. by rewrite <- app_assoc.
Qed.

Lemma split_go_first sep cur l1 l2 :
  sep ∉ l1 →
  JS.split_go sep cur (l1 ++ sep :: l2)
  = JS.of_chars (rev cur ++ l1) :: JS.split_go sep [] l2.
Proof.
  revert cur. induction l1 as [|c l1 IH]; intros cur Hn; simpl.
  - rewrite bool_decide_eq_true_2 by done. by rewrite app_nil_r.
  - rewrite bool_decide_eq_false_2 by (intros ->; apply Hn; left).
    rewrite IH by (intros ?; apply Hn; by right).
    simpl. by rewrite <- app_assoc.
Qed.

(** [h.split(":")[0]] drops a port and leaves a bare host name alone. *)
Lemma split_first_port h port :
  ":"%char ∉ JS.chars h → JS.split_first ":" (h +:+ ":" +:+ port) = h.
Proof.
  intros Hn. unfold JS.split_first, JS.split.
  rewrite chars_app.
  change (JS.chars (":" +:+ port)) with (":"%char :: JS.chars port).
  rewrite split_go_first by done. simpl. apply of_chars_chars.
Qed.

Lemma split_first_bare h :
  ":"%char ∉ JS.chars h → JS.split_first ":" h = h.
Proof.
  intros Hn. unfold JS.split_first, JS.split.
  rewrite split_go_no_sep by done. simpl. apply of_chars_chars.
Qed.

Lemma lower_char_idemp c : JS.lower_char (JS.lower_char c) = JS.lower_char c.
Proof. by destruct c as [[] [] [] [] [] [] [] []]; vm_compute. Qed.

Lemma toLowerCase_idemp s :
  JS.toLowerCase (JS.toLowerCase s) = JS.toLowerCase s.
Proof.
  unfold JS.toLowerCase. rewrite chars_of_chars. f_equal.
  rewrite <- list_fmap_compose. apply list_fmap_ext.
  intros _ c _. apply lower_char_idemp.
Qed.

Lemma truthy_true s : JS.truthy s = true ↔ s ≠ "".
Proof.
  unfold JS.truthy. rewrite negb_true_iff, bool_decide_eq_false. done.
Qed.

Lemma truthy_false s : JS.truthy s = false ↔ s = "".
Proof.
  unfold JS.truthy. rewrite negb_false_iff, bool_decide_eq_true. done.
Qed.

End StringFacts.

(** ** Host filter *)

Section HostFilterFacts.

Lemma wildcard_matches suffix h :
  HostFilter.pattern_matches h ("*." +:+ suffix) = true
  ↔ ∃ pre, h = pre +:+ "." +:+ suffix.
Proof.
  unfold HostFilter.pattern_matches.
  assert (JS.startsWith ("*." +:+ suffix) "*." = true) as ->
    by (apply startsWith_spec; eauto).
  change (JS.slice1 ("*." +:+ suffix)) with ("." +:+ suffix).
  apply endsWith_spec.
Qed.

Lemma plain_matches p h :
  JS.startsWith p "*." = false →
  HostFilter.pattern_matches h p = true ↔ h = p.
Proof.
  intros Hp. unfold HostFilter.pattern_matches. rewrite Hp.
  apply bool_decide_eq_true.
Qed.

Lemma allowHost_spec allow h :
  HostFilter.allowHost allow h = true
  ↔ ∃ p, p ∈ allow ∧ HostFilter.pattern_matches h p = true.
Proof.
  unfold HostFilter.allowHost. rewrite existsb_exists.
  split; intros (p & Hp & Hm); exists p; split; try done;
    by apply list_elem_of_In.
Qed.

(** The forwarded host wins when it is present and not empty. *)
Lemma effective_host_forwarded req xfh :
  x_forwarded_host req = Some xfh → xfh ≠ "" →
  HostFilter.effective_host req = JS.toLowerCase (JS.split_first ":" xfh).
Proof.
  intros Hx Hne. unfold HostFilter.effective_host, JS.or_else.
  rewrite Hx. simpl. by rewrite (proj2 (truthy_true xfh) Hne).
Qed.

Lemma effective_host_direct req :
  x_forwarded_host req = None →
  HostFilter.effective_host req
  = JS.toLowerCase (JS.split_first ":" (JS.or_empty (host req))).
Proof.
  intros Hx. unfold HostFilter.effective_host, JS.or_else. by rewrite Hx.
Qed.

Lemma effective_host_lower req :
  JS.toLowerCase (HostFilter.effective_host req) = HostFilter.effective_host req.
Proof. apply toLowerCase_idemp. Qed.

(** With the filter configured, a host outside the list is refused on every
    route, before any handler runs. *)
Lemma app_forbidden_host d slugify mime_extension getPublicUrl
    encodeURIComponent fuel req w :
  HostFilter.passes (ALLOWED_HOSTS d) req = false →
  app d slugify mime_extension getPublicUrl encodeURIComponent fuel req w
  = (Val (Send 403 "Forbidden host"), w).
Proof. intros H. unfold app. by rewrite H. Qed.

(** The variant never answers 403 for a host: an unlisted host is
    redirected, with path and query kept, and a listed one passes. *)
Lemma canonical_redirect_example :
  HostFilter.canonical_redirect evil_request "/watch/my-trailer?admin=1"
  = Some (301, "https://shortmovies.xyz/watch/my-trailer?admin=1")
  ∧ HostFilter.canonical_redirect canonical_host_request "/" = None.
Proof. split; by vm_compute. Qed.

End HostFilterFacts.

(** C8. In allow-list mode the host filter of server.js takes the host from
    the forwarded-host header when that is present (and not empty), otherwise
    from the host header, strips the port, lowercases it, and lets the request
    through exactly when some configured pattern matches: a pattern
    [*.suffix] matches the hosts that end in [.suffix], any other pattern only
    the host equal to it.  Every other request is answered 403, whatever its
    route. *)
Theorem host_filter_allow_list :
  (∀ suffix h,
     HostFilter.pattern_matches h ("*." +:+ suffix) = true
     ↔ ∃ pre, h = pre +:+ "." +:+ suffix)
  ∧ (∀ p h, JS.startsWith p "*." = false →
       (HostFilter.pattern_matches h p = true ↔ h = p))
  ∧ (∀ allow h,
       HostFilter.allowHost allow h = true
       ↔ ∃ p, p ∈ allow ∧ HostFilter.pattern_matches h p = true)
  ∧ (∀ req xfh, x_forwarded_host req = Some xfh → xfh ≠ "" →
       HostFilter.effective_host req = JS.toLowerCase (JS.split_first ":" xfh))
  ∧ (∀ req, x_forwarded_host req = None →
       HostFilter.effective_host req
       = JS.toLowerCase (JS.split_first ":" (JS.or_empty (host req))))
  ∧ (∀ h port, ":"%char ∉ JS.chars h →
       JS.split_first ":" (h +:+ ":" +:+ port) = h ∧ JS.split_first ":" h = h)
  ∧ (∀ req, JS.toLowerCase (HostFilter.effective_host req)
            = HostFilter.effective_host req)
  ∧ HostFilter.pattern_matches "cdn.example.com" "*.example.com" = true
  ∧ HostFilter.pattern_matches "evil.com" "example.com" = false
  ∧ (∀ d slugify mime_extension getPublicUrl encodeURIComponent fuel req w,
       JS.trim (ALLOWED_HOSTS d) ≠ "" →
       HostFilter.allowHost (HostFilter.ALLOW (JS.trim (ALLOWED_HOSTS d)))
         (HostFilter.effective_host req) = false →
       app d slugify mime_extension getPublicUrl encodeURIComponent fuel req w
       = (Val (Send 403 "Forbidden host"), w)).
Proof.
  split; [exact wildcard_matches|].
  split; [exact plain_matches|].
  split; [exact allowHost_spec|].
  split; [exact effective_host_forwarded|].
  split; [exact effective_host_direct|].
  split; [intros h port Hn; split;
          [by apply split_first_port | by apply split_first_bare]|].
  split; [exact effective_host_lower|].
  split; [by vm_compute|].
  split; [by vm_compute|].
  intros d sl me gp en fuel req w Hraw Hno.
  apply app_forbidden_host. unfold HostFilter.passes.
  rewrite (proj2 (truthy_true _) Hraw). exact Hno.
Qed.

(** The filter on two requests: a forwarded sub-domain with a port, in mixed
    case, passes; a foreign host is answered 403 on the watch route. *)
Lemma host_filter_allow_list_witness :
  HostFilter.passes (ALLOWED_HOSTS example_hosts) cdn_request = true
  ∧ HostFilter.effective_host cdn_request = "cdn.example.com"
  ∧ app example_hosts slugify_ascii mime_extension_std publicUrl_demo
      (λ k, k) 4 evil_request empty_world
    = (Val (Send 403 "Forbidden host"), empty_world).
Proof.
  split; [by vm_compute|].
  split.
  - rewrite (proj1 (proj2 (proj2 (proj2 host_filter_allow_list)))
               cdn_request "CDN.Example.com:8443" eq_refl); by vm_compute.
  - apply (proj2 (proj2 (proj2 (proj2 (proj2 (proj2 (proj2 (proj2 (proj2
             host_filter_allow_list)))))))));
      by vm_compute.
Defined.

(** ** Admin guard *)

Section GuardFacts.

Lemma authorize_spec supplied configured :
  authorize supplied configured = true
  ↔ configured ≠ "" ∧ JS.trim supplied = configured.
Proof.
  unfold authorize.
  by rewrite andb_true_iff, truthy_true, bool_decide_eq_true.
Qed.

(** The value the [||] chain of checkAdmin selects: the first of query
    parameter, body field and header that is present and not empty. *)
Lemma supplied_key_query d req k :
  query_key req = Some k → k ≠ "" → supplied_key req = JS.trim k ∧
  checkAdmin d req = authorize k (ADMIN_KEY d).
Proof.
  intros Hq Hk. unfold checkAdmin, authorize, supplied_key, JS.or_else.
  rewrite Hq. simpl. rewrite (proj2 (truthy_true k) Hk). simpl.
  by rewrite (proj2 (truthy_true k) Hk).
Qed.

Lemma supplied_key_body d req k :
  JS.truthy_opt (query_key req) = false →
  body_key req = Some k → k ≠ "" →
  supplied_key req = JS.trim k ∧ checkAdmin d req = authorize k (ADMIN_KEY d).
Proof.
  intros Hq Hb Hk. unfold checkAdmin, authorize, supplied_key, JS.or_else.
  rewrite Hq, Hb. simpl. by rewrite (proj2 (truthy_true k) Hk).
Qed.

Lemma supplied_key_header d req :
  JS.truthy_opt (query_key req) = false →
  JS.truthy_opt (body_key req) = false →
  supplied_key req = JS.trim (JS.or_empty (x_admin_key req)) ∧
  checkAdmin d req = authorize (JS.or_empty (x_admin_key req)) (ADMIN_KEY d).
Proof.
  intros Hq Hb. unfold checkAdmin, authorize, supplied_key, JS.or_else.
  by rewrite Hq, Hb.
Qed.

(** On a multipart request the guard reads no body field. *)
Lemma checkAdmin_multipart d req fields file :
  req_body req = Multipart fields file →
  body_key req = None
  ∧ checkAdmin d req
    = authorize (JS.or_empty (JS.or_else (query_key req) (x_admin_key req)))
        (ADMIN_KEY d).
Proof.
  intros Hb.
  assert (body_key req = None) as Hk by (unfold body_key; by rewrite Hb).
  split; [done|].
  unfold checkAdmin, authorize, supplied_key, JS.or_else. rewrite Hk.
  by destruct (JS.truthy_opt (query_key req)) eqn:Hq; simpl; rewrite ?Hq.
Qed.

Lemma checkAdmin_spec d req :
  checkAdmin d req = true
  ↔ ADMIN_KEY d ≠ "" ∧ supplied_key req = ADMIN_KEY d.
Proof.
  unfold checkAdmin.
  by rewrite andb_true_iff, truthy_true, bool_decide_eq_true.
Qed.

Lemma routes_forbidden d slugify mime_extension getPublicUrl
    encodeURIComponent fuel req w :
  admin_route (req_route req) → checkAdmin d req = false →
  routes d slugify mime_extension getPublicUrl encodeURIComponent fuel req w
  = (Val (Send 403 "Forbidden: Admin key required"), w).
Proof.
  intros Hr Hc. unfold routes, upload_route.
  destruct Hr as [-> | [-> | [s ->]]]; by rewrite Hc.
Qed.

Lemma app_forbidden d slugify mime_extension getPublicUrl
    encodeURIComponent fuel req w :
  admin_route (req_route req) → checkAdmin d req = false →
  ∃ body,
    app d slugify mime_extension getPublicUrl encodeURIComponent fuel req w
    = (Val (Send 403 body), w).
Proof.
  intros Hr Hc. unfold app.
  destruct (HostFilter.passes _ _); [|by eexists].
  rewrite routes_forbidden by done. by eexists.
Qed.

End GuardFacts.

(** C2, as stated, fails: a key that is present and correct in one source does
    not suffice when an earlier source of the [||] chain holds another value.
    Here the query parameter is wrong and the header is right. *)
Lemma admin_guard_any_source_counterexample :
  ¬ (∀ d req k,
       ADMIN_KEY d ≠ "" →
       query_key req = Some k ∨ body_key req = Some k ∨ x_admin_key req = Some k →
       JS.trim k = ADMIN_KEY d →
       checkAdmin d req = true).
Proof.
  intros H.
  specialize (H demo wrong_query_right_header "secret").
  assert (checkAdmin demo wrong_query_right_header = false) as Hf
    by (by vm_compute).
  rewrite H in Hf; [discriminate Hf| by vm_compute | by right; right
                   | by vm_compute].
Qed.

(** C2, amended.  For key values that are strings, the guard compares one
    supplied key: the first that is present and not empty among the query
    parameter, the key of a body that the urlencoded or JSON parser has
    read, and the x-admin-key header, in that order.  It allows the request
    exactly when the configured key is not empty and equals that key after
    trimming, so a correct key in one source suffices when the sources
    before it are absent or empty.  On a multipart request, which every
    upload of a file is, the guard runs before the form is read: a key sent
    as a form field is not a source, and only query parameter and header
    count.  Every admin route answers 403 when the guard does not allow. *)
Theorem admin_guard_first_present :
  (∀ d req, checkAdmin d req = true
            ↔ ADMIN_KEY d ≠ "" ∧ supplied_key req = ADMIN_KEY d)
  ∧ (∀ d req k, query_key req = Some k → k ≠ "" →
       checkAdmin d req = authorize k (ADMIN_KEY d))
  ∧ (∀ d req k, JS.truthy_opt (query_key req) = false →
       body_key req = Some k → k ≠ "" →
       checkAdmin d req = authorize k (ADMIN_KEY d))
  ∧ (∀ d req, JS.truthy_opt (query_key req) = false →
       JS.truthy_opt (body_key req) = false →
       checkAdmin d req = authorize (JS.or_empty (x_admin_key req)) (ADMIN_KEY d))
  ∧ (∀ d req fields file,
       req_body req = Multipart fields file →
       body_key req = None
       ∧ checkAdmin d req
         = authorize
             (JS.or_empty (JS.or_else (query_key req) (x_admin_key req)))
             (ADMIN_KEY d))
  ∧ (∀ supplied configured,
       authorize supplied configured = true
       ↔ configured ≠ "" ∧ JS.trim supplied = configured)
  ∧ authorize "" "secret" = false
  ∧ authorize "secret" "" = false
  ∧ authorize "secret" "secret" = true
  ∧ authorize " secret " "secret" = true
  ∧ (∀ d slugify mime_extension getPublicUrl encodeURIComponent fuel req w,
       admin_route (req_route req) → checkAdmin d req = false →
       ∃ body,
         app d slugify mime_extension getPublicUrl encodeURIComponent fuel req w
         = (Val (Send 403 body), w)).
Proof.
  split; [exact checkAdmin_spec|].
  split; [intros d req k Hq Hk; by apply supplied_key_query|].
  split; [intros d req k Hq Hb Hk; by apply supplied_key_body|].
  split; [intros d req Hq Hb; by apply supplied_key_header|].
  split; [exact checkAdmin_multipart|].
  split; [exact authorize_spec|].
  repeat (split; [by vm_compute|]).
  exact app_forbidden.
Qed.

(** The guard on three requests: the header alone, padded with spaces, is
    accepted; an upload whose only key is a field of its multipart form is
    not, and is answered 403, though the field holds the configured key. *)
Lemma admin_guard_first_present_witness :
  checkAdmin demo header_only = true
  ∧ form_key form_key_upload = Some "secret"
  ∧ checkAdmin demo form_key_upload = false
  ∧ ∃ body,
      app demo slugify_ascii mime_extension_std publicUrl_demo (λ k, k) 4
        form_key_upload empty_world
      = (Val (Send 403 body), empty_world).
Proof.
  split; [|split; [reflexivity|split]].
  - rewrite (proj1 (proj2 (proj2 (proj2 admin_guard_first_present)))
               demo header_only eq_refl eq_refl).
    by vm_compute.
  - rewrite (proj2 (proj1 (proj2 (proj2 (proj2 (proj2
               admin_guard_first_present))))
               demo form_key_upload _ _ eq_refl)).
    by vm_compute.
  - apply (proj2 (proj2 (proj2 (proj2 (proj2 (proj2 (proj2 (proj2 (proj2
             (proj2 admin_guard_first_present)))))))))).
    + right. left. reflexivity.
    + by vm_compute.
Defined.

(** ** Slug allocation *)

Section Candidates.

Lemma candidate_inj base i j : candidate base i = candidate base j → i = j.
Proof.
  unfold candidate. intros H.
  apply (inj (String.app base)) in H.
  apply (inj (String.app "-")) in H.
  by apply (inj pretty) in H.
Qed.

Lemma candidate_ne_base base i : candidate base i ≠ base.
Proof.
  unfold candidate. intros H.
  apply (f_equal JS.chars) in H. rewrite chars_app in H.
  rewrite <- (app_nil_r (JS.chars base)) in H at 2.
  apply app_inv_head in H. discriminate H.
Qed.

Lemma nth_candidate_inj base : Inj (=) (=) (nth_candidate base).
Proof.
  intros [|j] [|k] H; simpl in H.
  - done.
  - symmetry in H. by apply candidate_ne_base in H.
  - by apply candidate_ne_base in H.
  - apply candidate_inj in H. congruence.
Qed.

Lemma nth_candidate_succ base j :
  nth_candidate base (S j) = candidate base (2 + j).
Proof. done. Qed.

(** Searching a decidable property below a bound finds its first failure. *)
Lemma first_failure (P : nat → Prop) `{!∀ n, Decision (P n)} n :
  (∀ j, j < n → P j) ∨ ∃ k, k < n ∧ ¬ P k ∧ ∀ j, j < k → P j.
Proof.
  induction n as [|n [IH | (k & Hk & Hnk & Hlt)]].
  - left. intros j Hj. lia.
  - destruct (decide (P n)) as [Hn | Hn].
    + left. intros j Hj. destruct (decide (j = n)) as [-> | ?]; [done|].
      apply IH. lia.
    + right. exists n. split; [lia|]. split; [done|]. exact IH.
  - right. exists k. split; [lia|]. done.
Qed.

(** Only finitely many candidates can be taken: among the first
    [size taken + 1] candidates one is free, and there is a first one. *)
Lemma first_free_exists (taken : gset string) base :
  ∃ k, k ≤ size taken ∧ (nth_candidate base k ∉ taken)
       ∧ ∀ j, j < k → nth_candidate base j ∈ taken.
Proof.
  destruct (first_failure (λ k, nth_candidate base k ∈ taken) (S (size taken)))
    as [Hall | (k & Hk & Hfree & Hbefore)].
  - exfalso.
    pose (l := nth_candidate base <$> seq 0 (S (size taken))).
    assert (NoDup l) as Hnd.
    { pose proof (nth_candidate_inj base) as Hinj.
      apply (NoDup_fmap_2 _), NoDup_seq. }
    assert (list_to_set (C := gset string) l ⊆ taken) as Hsub.
    { intros s Hs. apply elem_of_list_to_set in Hs.
      apply list_elem_of_fmap in Hs as (j & -> & Hj).
      apply elem_of_seq in Hj. apply Hall. lia. }
    apply subseteq_size in Hsub.
    rewrite size_list_to_set in Hsub by done.
    unfold l in Hsub. rewrite length_fmap, length_seq in Hsub. lia.
  - exists k. split; [lia|]. done.
Qed.

End Candidates.

Section LoopFacts.
Context {A : Type} (probe : string → M (option A)).
Variable inv : world → Prop.
Variable taken : string → Prop.

Lemma slug_loop_free base fuel slug_ i w :
  slug_loop probe base fuel slug_ None i w = (Val slug_, w).
Proof. by destruct fuel. Qed.

Lemma slug_loop_exact (Hp : faithful probe inv taken) base k :
  ∀ fuel i slug_ a w,
    inv w → k < fuel →
    (∀ j, j < k → taken (candidate base (i + j))) →
    ¬ taken (candidate base (i + k)) →
    ∃ w', slug_loop probe base fuel slug_ (Some a) i w
          = (Val (candidate base (i + k)), w') ∧ inv w'.
Proof.
  induction k as [|k IH]; intros fuel i slug_ a w Hw Hfuel Hbefore Hfree;
    (destruct fuel as [|fuel]; [lia|]); simpl; unfold bind.
  - destruct (Hp (candidate base i) w Hw) as (r & w' & -> & Hw' & Hr).
    destruct r as [a'|].
    + exfalso. apply Hfree. rewrite Nat.add_0_r. apply Hr. by eexists.
    + rewrite slug_loop_free. rewrite Nat.add_0_r. eauto.
  - destruct (Hp (candidate base i) w Hw) as (r & w' & -> & Hw' & Hr).
    destruct r as [a'|].
    + destruct (IH fuel (S i) (candidate base i) a' w' Hw') as (w'' & Hl & Hw'').
      * lia.
      * intros j Hj. replace (S i + j) with (i + S j) by lia.
        apply Hbefore. lia.
      * by replace (S i + k) with (i + S k) by lia.
      * exists w''. by replace (i + S k) with (S i + k) by lia.
    + exfalso. specialize (Hbefore 0). rewrite Nat.add_0_r in Hbefore.
      assert (is_Some (@None A)) as [? ?] by (apply Hr, Hbefore; lia).
      discriminate.
Qed.

(** With faithful probes the allocation returns the first free candidate. *)
Lemma allocate_exact (Hp : faithful probe inv taken) base k fuel w :
  inv w → k ≤ fuel →
  (∀ j, j < k → taken (nth_candidate base j)) →
  ¬ taken (nth_candidate base k) →
  ∃ w', allocate probe fuel base w = (Val (nth_candidate base k), w') ∧ inv w'.
Proof.
  intros Hw Hfuel Hbefore Hfree. unfold allocate, bind.
  destruct (Hp base w Hw) as (r & w' & -> & Hw' & Hr).
  destruct k as [|k].
  - destruct r as [a|].
    + exfalso. apply Hfree. apply Hr. by eexists.
    + rewrite slug_loop_free. eauto.
  - destruct r as [a|].
    + rewrite nth_candidate_succ.
      apply (slug_loop_exact Hp); [done | lia | | done].
      intros j Hj. rewrite <- nth_candidate_succ. apply Hbefore. lia.
    + assert (is_Some (@None A)) as [? ?] by (apply Hr, (Hbefore 0); lia).
      discriminate.
Qed.

Lemma slug_loop_total (Hp : cautious probe inv taken) base k :
  ∀ fuel i slug_ e w,
    inv w → k < fuel → ¬ taken (candidate base (i + k)) →
    ∃ r w', slug_loop probe base fuel slug_ e i w = (r, w')
            ∧ inv w' ∧ r ≠ OutOfFuel.
Proof.
  induction k as [|k IH]; intros fuel i slug_ e w Hw Hfuel Hfree;
    (destruct e as [a|]; [|rewrite slug_loop_free; by eauto]);
    (destruct fuel as [|fuel]; [lia|]); simpl; unfold bind;
    destruct (Hp (candidate base i) w Hw) as (r & w' & -> & Hw' & Hr & Hs).
  - destruct r as [[a'|] | err | ]; [| | by eauto | done].
    + exfalso. apply Hfree. rewrite Nat.add_0_r. by eapply Hs.
    + rewrite slug_loop_free. by eauto.
  - destruct r as [e' | err | ]; [| by eauto | done].
    apply IH; [done | lia |].
    by replace (S i + k) with (i + S k) by lia.
Qed.

(** Even with probes that may fail, the allocation stops within the fuel
    that reaches a free candidate. *)
Lemma allocate_total (Hp : cautious probe inv taken) base k fuel w :
  inv w → k ≤ fuel → ¬ taken (nth_candidate base k) →
  ∃ r w', allocate probe fuel base w = (r, w') ∧ inv w' ∧ r ≠ OutOfFuel.
Proof.
  intros Hw Hfuel Hfree. unfold allocate, bind.
  destruct (Hp base w Hw) as (r & w' & -> & Hw' & Hr & Hs).
  destruct r as [e | err | ]; [| by eauto | done].
  destruct k as [|k].
  - destruct e as [a|]; [|rewrite slug_loop_free; by eauto].
    exfalso. apply Hfree. by eapply Hs.
  - apply (slug_loop_total Hp base k); [done | lia |].
    by rewrite <- nth_candidate_succ.
Qed.

End LoopFacts.

Section ProbeFacts.

Lemma taken_probe_faithful (taken : gset string) inv :
  faithful (taken_probe taken) inv (λ s, s ∈ taken).
Proof.
  intros s w Hw. eexists _, w. split; [done|]. split; [done|].
  case_bool_decide; split; try done.
Qed.

Lemma head_filter_slug s (l : list row) :
  is_Some (head (filter (λ r, slug r = s) l)) ↔ s ∈ slug <$> l.
Proof.
  rewrite list_elem_of_fmap. split.
  - intros [r Hr]. apply head_Some_elem_of in Hr.
    apply list_elem_of_filter in Hr as [Hs Hin]. eauto.
  - intros (r & -> & Hin).
    destruct (filter (λ r0, slug r0 = slug r) l) as [|r' l'] eqn:Hf.
    + assert (r ∈ filter (λ r0, slug r0 = slug r) l) as Hr
        by (by apply list_elem_of_filter).
      rewrite Hf in Hr. by apply not_elem_of_nil in Hr.
    + by eexists.
Qed.

(** A probe leaves the table alone, never runs out of fuel, and reports a row
    only when the table has one with that slug. *)
Lemma getVideoBySlug_cautious d w0 :
  cautious (getVideoBySlug d) (same_table w0) (λ s, s ∈ slugs w0).
Proof.
  intros s w [Hrows Hid].
  unfold getVideoBySlug, bind, await, Supabase.select_slug, Supabase.remote.
  destruct (link d (List.length (calls w))) as [|e|e]; simpl.
  - eexists _, _. split; [done|]. split; [done|]. split; [done|].
    intros a [= Ha]. unfold slugs. rewrite <- Hrows.
    apply head_filter_slug. by eexists.
  - eexists _, _. split; [done|]. split; [done|]. split; [done|].
    intros a [=].
  - eexists _, _. split; [done|]. split; [done|]. split; [done|].
    intros a [=].
Qed.

(** Over a reliable link the probe answers from the table. *)
Lemma getVideoBySlug_faithful d w0 :
  reliable d →
  faithful (getVideoBySlug d) (same_table w0) (λ s, s ∈ slugs w0).
Proof.
  intros Hup s w [Hrows Hid].
  unfold getVideoBySlug, bind, await, Supabase.select_slug, Supabase.remote.
  rewrite Hup. simpl.
  eexists _, _. split; [done|]. split; [done|].
  unfold slugs. rewrite <- Hrows. apply head_filter_slug.
Qed.

End ProbeFacts.

Section AllocatorFacts.

Lemma allocate_taken_exact (taken : gset string) base k fuel w :
  k ≤ fuel → nth_candidate base k ∉ taken →
  (∀ j, j < k → nth_candidate base j ∈ taken) →
  allocate (taken_probe taken) fuel base w = (Val (nth_candidate base k), w).
Proof.
  intros Hfuel Hfree Hbefore.
  destruct (allocate_exact (taken_probe taken) (λ w', w' = w) (λ s, s ∈ taken)
              (taken_probe_faithful taken _) base k fuel w)
    as (w' & Ha & ->); done.
Qed.

Lemma allocate_store_exact d base k fuel w :
  reliable d → k ≤ fuel → nth_candidate base k ∉ slugs w →
  (∀ j, j < k → nth_candidate base j ∈ slugs w) →
  ∃ w', allocate (getVideoBySlug d) fuel base w
        = (Val (nth_candidate base k), w') ∧ same_table w w'.
Proof.
  intros Hup Hfuel Hfree Hbefore.
  apply (allocate_exact (getVideoBySlug d) (same_table w) (λ s, s ∈ slugs w));
    try done.
  by apply getVideoBySlug_faithful.
Qed.

Lemma size_list_to_set_le (l : list string) :
  size (list_to_set (C := gset string) l) ≤ List.length l.
Proof.
  induction l as [|x l IH].
  - rewrite list_to_set_nil, size_empty. done.
  - rewrite list_to_set_cons, size_union_alt, size_singleton. simpl.
    assert (size (list_to_set (C := gset string) l ∖ {[x]})
            ≤ size (list_to_set (C := gset string) l)) as Hle
      by (apply subseteq_size; intros y Hy;
          by apply elem_of_difference in Hy as [? _]).
    lia.
Qed.

(** Against the table the loop stops within one probe per row and one more,
    whatever the link does. *)
Lemma allocate_store_total d base fuel w :
  List.length (rows w) ≤ fuel →
  ∃ r w', allocate (getVideoBySlug d) fuel base w = (r, w')
          ∧ same_table w w' ∧ r ≠ OutOfFuel.
Proof.
  intros Hfuel.
  destruct (first_free_exists (list_to_set (slugs w)) base)
    as (k & Hk & Hfree & _).
  pose proof (size_list_to_set_le (slugs w)) as Hsz.
  unfold slugs in Hsz at 2. rewrite length_fmap in Hsz.
  apply (allocate_total (getVideoBySlug d) (same_table w) (λ s, s ∈ slugs w)
           (getVideoBySlug_cautious d w) base k); [done | lia |].
  intros Hin. apply Hfree. by apply elem_of_list_to_set.
Qed.

Lemma base_token_fallback slugify t :
  slugify t = "" → base_token slugify t = "video".
Proof. intros H. unfold base_token. by rewrite H. Qed.

Lemma base_token_nonempty slugify t : base_token slugify t ≠ "".
Proof.
  unfold base_token. destruct (JS.truthy (slugify t)) eqn:H; [|done].
  by apply truthy_true.
Qed.

Lemma nth_candidate_nonempty base k : base ≠ "" → nth_candidate base k ≠ "".
Proof.
  intros Hb. destruct k as [|k]; [done|]. simpl. unfold candidate.
  destruct base; [done|]. discriminate.
Qed.

End AllocatorFacts.

(** C1. For every title with normalized base token [base], the allocator
    returns the first candidate of base, base-2, base-3, ... that the
    existence check does not report as taken: with base and base-2 taken and
    base-3 free it returns base-3, and for every set of taken slugs it
    returns the first candidate outside the set.  The same holds when the
    check is getVideoBySlug against the table over a link that answers. *)
Theorem slug_allocator_first_unused :
  ∀ slugify title base,
    base = base_token slugify title ∨ base = base_token_variant slugify title →
    (∀ (taken : gset string) w k fuel,
       k ≤ fuel → nth_candidate base k ∉ taken →
       (∀ j, j < k → nth_candidate base j ∈ taken) →
       allocate (taken_probe taken) fuel base w
       = (Val (nth_candidate base k), w))
    ∧ (∀ (taken : gset string) w fuel,
         2 ≤ fuel → base ∈ taken → base +:+ "-2" ∈ taken →
         base +:+ "-3" ∉ taken →
         allocate (taken_probe taken) fuel base w = (Val (base +:+ "-3"), w))
    ∧ (∀ d w k fuel,
         reliable d → k ≤ fuel → nth_candidate base k ∉ slugs w →
         (∀ j, j < k → nth_candidate base j ∈ slugs w) →
         ∃ w', allocate (getVideoBySlug d) fuel base w
               = (Val (nth_candidate base k), w') ∧ same_table w w').
Proof.
  intros slugify title base _. split; [|split].
  - intros taken w k fuel. apply allocate_taken_exact.
  - intros taken w fuel Hfuel H1 H2 H3.
    apply (allocate_taken_exact taken base 2 fuel w); [done | done |].
    intros [|[|j]] Hj; [done | done | lia].
  - intros d w k fuel. apply allocate_store_exact.
Qed.

(** The allocator on the title of the spec's scenario, with [my-trailer] and
    [my-trailer-2] taken. *)
Lemma slug_allocator_first_unused_witness :
  allocate (taken_probe {["my-trailer"; "my-trailer-2"]}) 5
    (base_token slugify_ascii "My Trailer!") empty_world
  = (Val "my-trailer-3", empty_world).
Proof.
  apply (proj1 (proj2 (slug_allocator_first_unused slugify_ascii "My Trailer!"
                         (base_token slugify_ascii "My Trailer!")
                         (or_introl eq_refl)))
           {["my-trailer"; "my-trailer-2"]} empty_world 5).
  - lia.
  - by vm_compute.
  - by vm_compute.
  - by vm_compute.
Defined.

(** The end-to-end scenario of the spec: the title "My Trailer!" on an
    empty table gets the slug my-trailer, the blob goes to
    trailers/<timestamp>_my-trailer.mp4 and the row's url is the public url
    of that path. *)
Lemma scenario_end_to_end :
  ∃ w' r,
    app demo slugify_ascii mime_extension_std publicUrl_demo (λ k, k) 0
      scenario_upload empty_world
    = (Val (Redirect 302 "/admin?key=secret"), w')
    ∧ rows w' = [r]
    ∧ slug r = "my-trailer"
    ∧ file_path r = "trailers/1700000000000_my-trailer.mp4"
    ∧ url r = publicUrl_demo (file_path r)
    ∧ blobs w' !! file_path r = Some "..."
    ∧ calls w' = [SelectSlug "my-trailer";
                  BlobUpload "trailers/1700000000000_my-trailer.mp4";
                  InsertRow "my-trailer"].
Proof. eexists _, _. repeat split; by vm_compute. Qed.

(** C10. The allocation loop terminates for every title and every existence
    check that answers from a fixed finite set of taken slugs: it returns
    within [size taken] iterations, because the candidates are pairwise
    distinct and only [size taken] of them can be taken.  Against the table
    it stops within one iteration per row even when probes fail. *)
Theorem slug_allocation_terminates :
  ∀ slugify title base,
    base = base_token slugify title ∨ base = base_token_variant slugify title →
    (∀ (taken : gset string) w,
       ∃ k, k ≤ size taken ∧
            ∀ fuel, k ≤ fuel →
              allocate (taken_probe taken) fuel base w
              = (Val (nth_candidate base k), w))
    ∧ (∀ d w fuel,
         List.length (rows w) ≤ fuel →
         ∃ r w', allocate (getVideoBySlug d) fuel base w = (r, w')
                 ∧ same_table w w' ∧ r ≠ OutOfFuel).
Proof.
  intros slugify title base _. split.
  - intros taken w.
    destruct (first_free_exists taken base) as (k & Hk & Hfree & Hbefore).
    exists k. split; [done|]. intros fuel Hfuel.
    by apply allocate_taken_exact.
  - intros d w fuel. apply allocate_store_total.
Qed.

(** Termination on the scenario title against a table of three rows. *)
Lemma slug_allocation_terminates_witness :
  ∃ r w', allocate (getVideoBySlug demo) 3
            (base_token slugify_ascii "My Trailer!") busy_world = (r, w')
          ∧ same_table busy_world w' ∧ r ≠ OutOfFuel.
Proof.
  apply (proj2 (slug_allocation_terminates slugify_ascii "My Trailer!"
                  (base_token slugify_ascii "My Trailer!")
                  (or_introl eq_refl)) demo busy_world 3).
  simpl. lia.
Defined.

(** C3 holds in server.js: a title that normalizes to the empty token is
    allocated from the sequence video, video-2, ..., never the empty slug. *)
Lemma server_fallback_token slugify title (taken : gset string) w :
  slugify title = "" →
  ∃ k, (∀ fuel, k ≤ fuel →
          allocate (taken_probe taken) fuel (base_token slugify title) w
          = (Val (nth_candidate "video" k), w))
       ∧ nth_candidate "video" k ≠ "".
Proof.
  intros Hempty. rewrite (base_token_fallback _ _ Hempty).
  destruct (first_free_exists taken "video") as (k & Hk & Hfree & Hbefore).
  exists k. split.
  - intros fuel Hfuel. by apply allocate_taken_exact.
  - by apply nth_candidate_nonempty.
Qed.

(** C3 fails in the variant, which has no fallback: the title "!!!"
    normalizes to the empty token and the upload stores a row whose slug is
    empty, where server.js stores the slug video. *)
Theorem variant_allocates_empty_slug :
  slugify_ascii "!!!" = ""
  ∧ fst (allocate (getVideoBySlug demo) 1
           (base_token_variant slugify_ascii "!!!") empty_world) = Val ""
  ∧ slugs (snd (upload_route demo mime_extension_std publicUrl_demo (λ k, k)
                  (base_token_variant slugify_ascii) 1
                  punctuation_upload empty_world)) = [""]
  ∧ slugs (snd (upload_route demo mime_extension_std publicUrl_demo (λ k, k)
                  (base_token slugify_ascii) 1
                  punctuation_upload empty_world)) = ["video"].
Proof. repeat split; by vm_compute. Qed.

(** ** getVideoBySlug *)

Section LookupFacts.

Lemma head_filter_absent s (l : list row) :
  s ∉ slug <$> l → head (filter (λ r, slug r = s) l) = None.
Proof.
  intros Hn. destruct (head _) as [r|] eqn:Hh; [|done].
  exfalso. apply Hn, head_filter_slug. by eexists.
Qed.

Lemma getVideoBySlug_absent d s w :
  link d (List.length (calls w)) = Up → s ∉ slugs w →
  getVideoBySlug d s w = (Val None, record_call (SelectSlug s) w).
Proof.
  intros Hup Hn.
  unfold getVideoBySlug, bind, await, Supabase.select_slug, Supabase.remote.
  rewrite Hup. simpl. by rewrite head_filter_absent.
Qed.

Lemma getVideoBySlug_failed d s w e :
  link d (List.length (calls w)) = Failing e →
  getVideoBySlug d s w
  = (Val None,
     console_error ("getVideoBySlug error: " +:+ printed e)
       (record_call (SelectSlug s) w)).
Proof.
  intros Hdown.
  unfold getVideoBySlug, bind, await, Supabase.select_slug, Supabase.remote.
  by rewrite Hdown.
Qed.

Lemma getVideoBySlug_found d s w :
  link d (List.length (calls w)) = Up → s ∈ slugs w →
  ∃ r, getVideoBySlug d s w = (Val (Some r), record_call (SelectSlug s) w)
       ∧ r ∈ rows w ∧ slug r = s.
Proof.
  intros Hup Hin.
  unfold getVideoBySlug, bind, await, Supabase.select_slug, Supabase.remote.
  rewrite Hup. simpl.
  apply head_filter_slug in Hin as [r Hr]. exists r. rewrite Hr.
  split; [done|]. apply head_Some_elem_of in Hr.
  by apply list_elem_of_filter in Hr as [? ?].
Qed.

Lemma watch_not_found d slugify mime_extension getPublicUrl
    encodeURIComponent fuel req s w :
  req_route req = Watch s → HostFilter.passes (ALLOWED_HOSTS d) req = true →
  fst (getVideoBySlug d s w) = Val None →
  fst (app d slugify mime_extension getPublicUrl encodeURIComponent fuel req w)
  = Val (Send 404 "Video tidak ditemukan").
Proof.
  intros Hr Hh Hg. unfold app, routes. rewrite Hh, Hr. unfold bind.
  destruct (getVideoBySlug d s w) as [r w']. simpl in Hg. by subst r.
Qed.

End LookupFacts.

(** C4, as stated, fails: the caller of getVideoBySlug cannot tell a failed
    query from an absent row, because the function returns null for both. *)
Lemma getVideoBySlug_failure_distinct_counterexample :
  ¬ (∀ d d' s w e,
       link d (List.length (calls w)) = Failing e →
       link d' (List.length (calls w)) = Up → s ∉ slugs w →
       fst (getVideoBySlug d s w) ≠ fst (getVideoBySlug d' s w)).
Proof.
  intros H.
  apply (H link_down demo "ghost" busy_world timeout_error);
    [reflexivity | reflexivity | by_decide | by vm_compute].
Qed.

(** C4, amended.  getVideoBySlug for a slug that is not in the table returns
    absent, not an error, and logs nothing.  A query failure that the client
    reports is logged and returned as absent too: the returned value is the
    same in both cases, and the watch route answers 404 in both.  A slug that
    is in the table is returned with its row. *)
Theorem getVideoBySlug_absent_or_failed :
  (∀ d s w, link d (List.length (calls w)) = Up → s ∉ slugs w →
     getVideoBySlug d s w = (Val None, record_call (SelectSlug s) w))
  ∧ (∀ d s w e, link d (List.length (calls w)) = Failing e →
       getVideoBySlug d s w
       = (Val None,
          console_error ("getVideoBySlug error: " +:+ printed e)
            (record_call (SelectSlug s) w)))
  ∧ (∀ d s w, link d (List.length (calls w)) = Up → s ∈ slugs w →
       ∃ r, getVideoBySlug d s w
            = (Val (Some r), record_call (SelectSlug s) w)
            ∧ r ∈ rows w ∧ slug r = s)
  ∧ (∀ d slugify mime_extension getPublicUrl encodeURIComponent fuel req s w,
       req_route req = Watch s →
       HostFilter.passes (ALLOWED_HOSTS d) req = true →
       fst (getVideoBySlug d s w) = Val None →
       fst (app d slugify mime_extension getPublicUrl encodeURIComponent
              fuel req w)
       = Val (Send 404 "Video tidak ditemukan")).
Proof.
  split; [exact getVideoBySlug_absent|].
  split; [exact getVideoBySlug_failed|].
  split; [exact getVideoBySlug_found|].
  exact watch_not_found.
Qed.

(** An absent slug over a working link, and a stored slug over a failing
    one: both lookups return null, and the second leaves a console line. *)
Lemma getVideoBySlug_absent_or_failed_witness :
  getVideoBySlug demo "ghost" busy_world
  = (Val None, record_call (SelectSlug "ghost") busy_world)
  ∧ getVideoBySlug link_down "my-trailer" busy_world
    = (Val None,
       console_error "getVideoBySlug error: [object Object]"
         (record_call (SelectSlug "my-trailer") busy_world))
  ∧ fst (app link_down slugify_ascii mime_extension_std publicUrl_demo
           (λ k, k) 4 (watch_request "my-trailer") busy_world)
    = Val (Send 404 "Video tidak ditemukan").
Proof.
  split; [|split].
  - apply (proj1 getVideoBySlug_absent_or_failed demo "ghost" busy_world).
    + reflexivity.
    + by_decide.
  - apply (proj1 (proj2 getVideoBySlug_absent_or_failed)
             link_down "my-trailer" busy_world timeout_error).
    reflexivity.
  - apply (proj2 (proj2 (proj2 getVideoBySlug_absent_or_failed))
             link_down slugify_ascii mime_extension_std publicUrl_demo
             (λ k, k) 4 (watch_request "my-trailer") "my-trailer" busy_world).
    + reflexivity.
    + by vm_compute.
    + by vm_compute.
Defined.

(** ** Upload validation *)

Section UploadFacts.
Variable d : deployment.
Variable slugify : string → string.
Variable mime_extension : string → option string.
Variable getPublicUrl : string → string.
Variable encodeURIComponent : string → string.

(** A file of a type outside the list never reaches the handler: multer hands
    the filter's error to Express, whose built-in handler answers 500, and
    the world is untouched. *)
Lemma upload_unlisted_type base fuel req f w :
  checkAdmin d req = true → video req = Some f →
  mimetype f ∉ allowed_types →
  upload_route d mime_extension getPublicUrl encodeURIComponent base fuel req w
  = (Val (DefaultError 500
            (JsError "Format video harus mp4/webm/ogg"
                     "Error: Format video harus mp4/webm/ogg")), w).
Proof.
  intros Hc Hv Ht. unfold upload_route, upload_single.
  rewrite Hc, Hv. by rewrite bool_decide_eq_false_2.
Qed.

Lemma upload_oversize base fuel req f w :
  checkAdmin d req = true → video req = Some f →
  mimetype f ∈ allowed_types → (fileSize_limit < file_size f)%N →
  upload_route d mime_extension getPublicUrl encodeURIComponent base fuel req w
  = (Val (DefaultError 500
            (JsError "File too large" "MulterError: File too large")), w).
Proof.
  intros Hc Hv Ht Hs. unfold upload_route, upload_single.
  rewrite Hc, Hv. rewrite bool_decide_eq_true_2 by done.
  by rewrite (proj2 (N.ltb_lt _ _) Hs).
Qed.

(** A missing title or a missing file is refused by the handler itself, with
    status 400, before any remote call. *)
Lemma upload_missing_field base fuel req file w :
  checkAdmin d req = true → upload_single req = Next file →
  JS.truthy_opt (form_title req) = false ∨ file = None →
  upload_route d mime_extension getPublicUrl encodeURIComponent base fuel req w
  = (Val (Send 400 "Judul & file wajib."),
     console_error "Error: Judul & file wajib." w).
Proof.
  intros Hc Hm Hmiss. unfold upload_route. rewrite Hc, Hm.
  unfold upload_handler, try_catch.
  destruct (form_title req) as [t|]; [|done].
  destruct file as [f|]; [|done].
  destruct Hmiss as [Ht | Hf]; [|done].
  simpl in Ht. by rewrite Ht.
Qed.

End UploadFacts.

(** C5 fails on the code for the type and size checks.  The upload of a PNG
    by an authorized admin is refused before any remote call, but through
    Express's built-in error handler and with status 500, and so is a file
    above the size limit; only the handler's own check of title and file
    answers 400. *)
Theorem upload_png_answers_500 :
  app demo slugify_ascii mime_extension_std publicUrl_demo (λ k, k) 4
    (upload_request "secret" "My Trailer!" "image/png" 1000) empty_world
  = (Val (DefaultError 500
            (JsError "Format video harus mp4/webm/ogg"
                     "Error: Format video harus mp4/webm/ogg")), empty_world)
  ∧ app demo slugify_ascii mime_extension_std publicUrl_demo (λ k, k) 4
      (upload_request "secret" "My Trailer!" "video/mp4" 314572801) empty_world
    = (Val (DefaultError 500
              (JsError "File too large" "MulterError: File too large")),
       empty_world)
  ∧ app demo slugify_ascii mime_extension_std publicUrl_demo (λ k, k) 4
      (upload_request "secret" "" "video/mp4" 1000) empty_world
    = (Val (Send 400 "Judul & file wajib."),
       console_error "Error: Judul & file wajib." empty_world).
Proof. repeat split; by vm_compute. Qed.

(** ** Deletion *)

Section DeleteFacts.
Variable d : deployment.
Variable encodeURIComponent : string → string.

(** Once deleteVideoBySlug has returned, the handler redirects: the blob
    removal that may follow cannot change the reply, only the world. *)
Lemma delete_handler_after_row s req w fp w1 :
  deleteVideoBySlug d s w = (Val fp, w1) →
  delete_handler d encodeURIComponent s req w
  = (Val (Redirect 302 (admin_location encodeURIComponent req)),
     if JS.truthy_opt fp
     then snd (Supabase.storage_remove d (JS.or_empty fp) w1)
     else w1).
Proof.
  intros Hd. unfold delete_handler, try_catch, bind. rewrite Hd.
  by destruct (JS.truthy_opt fp).
Qed.

Lemma storage_remove_effect path w :
  let w' := snd (Supabase.storage_remove d path w) in
  rows w' = rows w ∧ next_id w' = next_id w
  ∧ calls w' = calls w ++ [BlobRemove path] ∧ console w' = console w.
Proof.
  unfold Supabase.storage_remove, Supabase.remote.
  by destruct (link d _).
Qed.

Lemma deleteVideoBySlug_calls s w fp w1 :
  deleteVideoBySlug d s w = (Val fp, w1) →
  calls w1 = calls w ++ [DeleteSlug s].
Proof.
  unfold deleteVideoBySlug, bind, await, Supabase.table_delete, Supabase.remote.
  destruct (link d _); simpl; [|intros [=]..].
  destruct (filter _ (rows w)) as [|r [|r' l]]; simpl; intros [= <- <-]; done.
Qed.

(** The row delete of a slug that one row carries, over a link that is up. *)
Lemma deleteVideoBySlug_existing s w r :
  link d (List.length (calls w)) = Up →
  filter (λ r, slug r = s) (rows w) = [r] →
  deleteVideoBySlug d s w
  = (Val (Some (file_path r)),
     with_rows (filter (λ r, slug r ≠ s)) (record_call (DeleteSlug s) w)).
Proof.
  intros Hup Hr.
  unfold deleteVideoBySlug, bind, await, Supabase.table_delete, Supabase.remote.
  rewrite Hup. simpl. by rewrite Hr.
Qed.

End DeleteFacts.

(** C6. Deletion removes the row first and the blob afterwards, best effort:
    once the row delete has succeeded the delete route redirects to the admin
    page, whatever becomes of the blob removal (a reported failure and a
    rejected promise included), and nothing of that removal reaches the
    caller or the console.  For a slug that one row carries, over a link
    that is up for the row delete, the row delete succeeds and the row is
    gone. *)
Theorem delete_row_first_blob_best_effort :
  (∀ d encodeURIComponent s req w fp w1,
     deleteVideoBySlug d s w = (Val fp, w1) →
     ∃ w2,
       delete_handler d encodeURIComponent s req w
       = (Val (Redirect 302 (admin_location encodeURIComponent req)), w2)
       ∧ rows w2 = rows w1
       ∧ console w2 = console w1
       ∧ calls w1 = calls w ++ [DeleteSlug s]
       ∧ calls w2
         = calls w1 ++ (if JS.truthy_opt fp
                        then [BlobRemove (JS.or_empty fp)] else []))
  ∧ (∀ d s w r,
       link d (List.length (calls w)) = Up →
       filter (λ r, slug r = s) (rows w) = [r] →
       deleteVideoBySlug d s w
       = (Val (Some (file_path r)),
          with_rows (filter (λ r, slug r ≠ s))
            (record_call (DeleteSlug s) w)))
  ∧ (∀ d slugify mime_extension getPublicUrl encodeURIComponent fuel req s w
       fp w1,
       req_route req = AdminDelete s →
       HostFilter.passes (ALLOWED_HOSTS d) req = true →
       checkAdmin d req = true →
       deleteVideoBySlug d s w = (Val fp, w1) →
       fst (app d slugify mime_extension getPublicUrl encodeURIComponent
              fuel req w)
       = Val (Redirect 302 (admin_location encodeURIComponent req))).
Proof.
  split; [|split].
  - intros d enc s req w fp w1 Hd.
    rewrite (delete_handler_after_row d enc s req w fp w1 Hd).
    eexists. split; [done|].
    pose proof (deleteVideoBySlug_calls d s w fp w1 Hd) as Hc.
    destruct (JS.truthy_opt fp).
    + destruct (storage_remove_effect d (JS.or_empty fp) w1)
        as (Hr & _ & Hcalls & Hcon).
      by rewrite Hr, Hcon, Hcalls.
    + by rewrite app_nil_r.
  - intros d s w r. apply deleteVideoBySlug_existing.
  - intros d sl me gp enc fuel req s w fp w1 Hr Hh Hc Hd.
    unfold app, routes. rewrite Hh, Hr, Hc.
    by rewrite (delete_handler_after_row d enc s req w fp w1 Hd).
Qed.

(** Deleting a stored trailer while the object store is unreachable: the row
    delete succeeds, the blob removal is rejected, the reply is the
    redirect. *)
Lemma delete_row_first_blob_best_effort_witness :
  deleteVideoBySlug storage_down "my-trailer-2" busy_world
  = (Val (Some "trailers/100_my-trailer-2.mp4"),
     with_rows (filter (λ r, slug r ≠ "my-trailer-2"))
       (record_call (DeleteSlug "my-trailer-2") busy_world))
  ∧ ∃ w2,
      delete_handler storage_down (λ k, k) "my-trailer-2"
        (delete_request "secret" "my-trailer-2") busy_world
      = (Val (Redirect 302 "/admin?key=secret"), w2)
      ∧ slugs w2 = ["my-trailer"; "my-trailer-3"]
      ∧ console w2 = []
      ∧ calls w2 = [DeleteSlug "my-trailer-2";
                    BlobRemove "trailers/100_my-trailer-2.mp4"].
Proof.
  assert (deleteVideoBySlug storage_down "my-trailer-2" busy_world
          = (Val (Some "trailers/100_my-trailer-2.mp4"),
             with_rows (filter (λ r, slug r ≠ "my-trailer-2"))
               (record_call (DeleteSlug "my-trailer-2") busy_world))) as Hrow.
  { apply (proj1 (proj2 delete_row_first_blob_best_effort) storage_down
             "my-trailer-2" busy_world (trailer 2 100 "my-trailer-2")).
    - reflexivity.
    - by vm_compute. }
  split; [exact Hrow|].
  destruct (proj1 delete_row_first_blob_best_effort storage_down (λ k, k)
              "my-trailer-2" (delete_request "secret" "my-trailer-2")
              busy_world _ _ Hrow)
    as (w2 & Hreply & Hrows & Hcon & Hc1 & Hc2).
  exists w2. split; [exact Hreply|].
  unfold slugs. rewrite Hrows, Hcon, Hc2, Hc1. by vm_compute.
Defined.

(** ** Listing *)

Section ListFacts.
Variable d : deployment.

(** server.js falls back to the second ordering only when the first query's
    promise rejects; an error the client reports in its result is not an
    exception, so the list is empty and no second query is made. *)
Lemma readVideos_reported_error w :
  (link d (List.length (calls w)) = Up
   ∧ timestamp_column d ≠ Some "created_at")
  ∨ (∃ e, link d (List.length (calls w)) = Failing e) →
  readVideos d w = (Val [], record_call (SelectOrdered "created_at") w).
Proof.
  intros H.
  unfold readVideos, try_catch, bind, await, Supabase.select_ordered,
    Supabase.remote.
  destruct H as [[Hup Hcol] | [e He]].
  - rewrite Hup. simpl. by rewrite bool_decide_eq_false_2.
  - by rewrite He.
Qed.

Lemma readVideos_rejected w e :
  link d (List.length (calls w)) = Rejecting e →
  link d (S (List.length (calls w))) = Up →
  fst (readVideos d w) = Val (Supabase.order_desc id (rows w)).
Proof.
  intros Hrej Hup.
  unfold readVideos, try_catch, bind, await, Supabase.select_ordered,
    Supabase.remote.
  rewrite Hrej. simpl. rewrite length_app. simpl.
  rewrite Nat.add_1_r, Hup. done.
Qed.

(** The variant tries the second ordering whenever the first query reports
    an error. *)
Lemma readVideos_variant_fallback w :
  link d (List.length (calls w)) = Up →
  timestamp_column d ≠ Some "createdAt" →
  link d (S (List.length (calls w))) = Up →
  fst (readVideos_variant d w) = Val (Supabase.order_desc id (rows w)).
Proof.
  intros Hup Hcol Hup2.
  unfold readVideos_variant, bind, await, Supabase.select_ordered,
    Supabase.remote.
  rewrite Hup. simpl. rewrite bool_decide_eq_false_2 by done. simpl.
  rewrite length_app. simpl. rewrite Nat.add_1_r, Hup2. done.
Qed.

End ListFacts.

(** C7 fails in server.js.  On a table without the column created_at the
    first query reports an error in its result; readVideos of server.js
    takes that for an empty list and never orders by id, so the home page
    lists nothing.  The variant, on the same table, returns the three rows
    by decreasing id. *)
Theorem readVideos_no_fallback_on_reported_error :
  readVideos no_timestamp busy_world
  = (Val [], record_call (SelectOrdered "created_at") busy_world)
  ∧ fst (readVideos_variant no_timestamp busy_world)
    = Val [trailer 3 200 "my-trailer-3"; trailer 2 100 "my-trailer-2";
           trailer 1 300 "my-trailer"]
  ∧ fst (app no_timestamp slugify_ascii mime_extension_std publicUrl_demo
           (λ k, k) 4 (blank Home) busy_world)
    = Val (Render "home" []).
Proof. repeat split; by vm_compute. Qed.

(** ** Effects of the handlers on the table *)

Section TableEffects.
Variable d : deployment.

Lemma same_table_refl w : same_table w w.
Proof. by split. Qed.

Lemma same_table_trans w1 w2 w3 :
  same_table w1 w2 → same_table w2 w3 → same_table w1 w3.
Proof. intros [H1 H2] [H3 H4]. split; congruence. Qed.

Lemma getVideoBySlug_outcome s w :
  ∃ r w', getVideoBySlug d s w = (r, w') ∧ same_table w w' ∧ r ≠ OutOfFuel
          ∧ (reliable d → r = Val None → s ∉ slugs w).
Proof.
  unfold getVideoBySlug, bind, await, Supabase.select_slug, Supabase.remote.
  destruct (link d (List.length (calls w))) as [|e|e] eqn:Hl; simpl.
  - eexists _, _. split; [done|]. split; [done|]. split; [done|].
    intros _ [= Hh] Hin. apply head_filter_slug in Hin as [r Hr].
    by rewrite Hh in Hr.
  - eexists _, _. split; [done|]. split; [done|]. split; [done|].
    intros Hup. by rewrite Hup in Hl.
  - eexists _, _. split; [done|]. split; [done|]. split; [done|].
    intros Hup. by rewrite Hup in Hl.
Qed.

Lemma slug_loop_outcome base w0 fuel :
  ∀ i slug_ e w,
    same_table w0 w →
    (reliable d → e = None → slug_ ∉ slugs w0) →
    ∃ r w', slug_loop (getVideoBySlug d) base fuel slug_ e i w = (r, w')
            ∧ same_table w0 w'
            ∧ (reliable d → ∀ s, r = Val s → s ∉ slugs w0).
Proof.
  induction fuel as [|fuel IH]; intros i slug_ e w Hw He.
  - destruct e as [a|]; simpl.
    + eexists _, _. split; [done|]. split; [done|]. by intros _ s [=].
    + eexists _, _. split; [done|]. split; [done|].
      intros Hup s [= <-]. by apply He.
  - destruct e as [a|]; simpl.
    + unfold bind.
      destruct (getVideoBySlug_outcome (candidate base i) w)
        as (r & w1 & -> & Hw1 & _ & Hfree).
      destruct r as [e' | err | ].
      * apply IH; [by eapply same_table_trans|].
        intros Hup ->. unfold slugs. destruct Hw as [<- _].
        by apply Hfree.
      * eexists _, _. split; [done|].
        split; [by eapply same_table_trans|]. by intros _ s [=].
      * eexists _, _. split; [done|].
        split; [by eapply same_table_trans|]. by intros _ s [=].
    + eexists _, _. split; [done|]. split; [done|].
      intros Hup s [= <-]. by apply He.
Qed.

Lemma allocate_outcome base fuel w :
  ∃ r w', allocate (getVideoBySlug d) fuel base w = (r, w')
          ∧ same_table w w'
          ∧ (reliable d → ∀ s, r = Val s → s ∉ slugs w).
Proof.
  unfold allocate, bind.
  destruct (getVideoBySlug_outcome base w) as (r & w1 & -> & Hw1 & _ & Hfree).
  destruct r as [e | err | ].
  - apply slug_loop_outcome; [done|]. intros Hup ->. by apply Hfree.
  - eexists _, _. split; [done|]. split; [done|]. by intros _ s [=].
  - eexists _, _. split; [done|]. split; [done|]. by intros _ s [=].
Qed.






End TableEffects.

Section HandlerEffects.
Variable d : deployment.
Variable slugify : string → string.
Variable mime_extension : string → option string.
Variable getPublicUrl : string → string.
Variable encodeURIComponent : string → string.

Lemma table_effect_same w w' : same_table w w' → table_effect d w w'.
Proof. by left. Qed.

Lemma table_effect_logged w w' line :
  table_effect d w w' → table_effect d w (console_error line w').
Proof. done. Qed.






End HandlerEffects.

(** ** Invariants of the table *)

Section Invariants.
Variable d : deployment.
Variable slugify : string → string.
Variable mime_extension : string → option string.
Variable getPublicUrl : string → string.
Variable encodeURIComponent : string → string.








End Invariants.



(** The table after that upload: with no unique constraint and a failed
    first probe, a second row has the slug my-trailer. *)
Lemma unguarded_upload_duplicates :
  slugs (snd (app unguarded_flaky slugify_ascii mime_extension_std
                publicUrl_demo (λ k, k) 3 scenario_upload busy_world))
  = ["my-trailer"; "my-trailer-2"; "my-trailer-3"; "my-trailer"].
Proof. by vm_compute. Qed.


(** * Further properties *)

(** ** Shape of the allocated slug *)

Section SlugShape.

Lemma slug_loop_shape {A} (probe : string → M (option A)) base fuel :
  ∀ i slug_ e w s w',
    slug_loop probe base fuel slug_ e i w = (Val s, w') →
    s = slug_ ∨ ∃ j, i ≤ j < i + fuel ∧ s = candidate base j.
Proof.
  induction fuel as [|fuel IH]; intros i slug_ e w s w' Hl.
  - destruct e as [a|]; simpl in Hl; [discriminate|].
    left. by injection Hl as <- _.
  - destruct e as [a|]; simpl in Hl; [|left; by injection Hl as <- _].
    unfold bind in Hl.
    destruct (probe (candidate base i) w) as [[e'|err|] w1]; try discriminate.
    apply IH in Hl as [-> | (j & Hj & ->)]; right.
    + exists i. split; [lia | done].
    + exists j. split; [lia | done].
Qed.

Lemma allocate_shape {A} (probe : string → M (option A)) fuel base w s w' :
  allocate probe fuel base w = (Val s, w') →
  ∃ k, k ≤ fuel ∧ s = nth_candidate base k.
Proof.
  unfold allocate, bind. intros Hl.
  destruct (probe base w) as [[e|err|] w1]; try discriminate.
  apply slug_loop_shape in Hl as [-> | (j & Hj & ->)].
  - exists 0. split; [lia | done].
  - exists (j - 1). split; [lia|].
    destruct j as [|[|j]]; [lia | lia |].
    by replace (S (S j) - 1) with (S j) by lia.
Qed.

Lemma pretty_N_char_digit y : url_safe_char (pretty_N_char y) = true.
Proof. unfold pretty_N_char. by repeat case_match. Qed.

Lemma pretty_N_go_digits x :
  ∀ s, url_safe s = true → url_safe (pretty_N_go x s) = true.
Proof.
  induction (N.lt_wf_0 x) as [x _ IH]; intros s Hs.
  destruct (decide (x = 0)%N) as [-> | Hx]; [by rewrite pretty_N_go_0|].
  rewrite pretty_N_go_step by lia. apply IH.
  - apply N.div_lt; lia.
  - unfold url_safe in *. simpl. by rewrite pretty_N_char_digit, Hs.
Qed.

Lemma pretty_nat_digits (n : nat) : url_safe (pretty n) = true.
Proof.
  unfold pretty, pretty_nat, pretty, pretty_N.
  case_decide; [done|]. by apply pretty_N_go_digits.
Qed.

Lemma url_safe_app a b :
  url_safe (a +:+ b) = url_safe a && url_safe b.
Proof. unfold url_safe. by rewrite chars_app, forallb_app. Qed.

Lemma nth_candidate_url_safe base k :
  url_safe base = true → url_safe (nth_candidate base k) = true.
Proof.
  intros Hb. destruct k as [|k]; [done|]. simpl. unfold candidate.
  by rewrite !url_safe_app, Hb, pretty_nat_digits.
Qed.

End SlugShape.

(** X1. Whatever the existence check answers, a slug the allocator returns
    is the base token itself or the base token followed by a hyphen and a
    decimal suffix of at least 2, reached within the iterations run. *)
Theorem allocated_slug_is_candidate :
  ∀ {A} (probe : string → M (option A)) fuel base w s w',
    allocate probe fuel base w = (Val s, w') →
    ∃ k, k ≤ fuel ∧ s = nth_candidate base k
         ∧ (k = 0 ∧ s = base ∨ 0 < k ∧ s = base +:+ "-" +:+ pretty (S k)).
Proof.
  intros A probe fuel base w s w' Hl.
  destruct (allocate_shape probe fuel base w s w' Hl) as (k & Hk & ->).
  exists k. split; [done|]. split; [done|].
  destruct k as [|k]; [left; by split|right]. split; [lia | done].
Qed.

Lemma allocated_slug_is_candidate_witness :
  ∃ k, k ≤ 3 ∧ "my-trailer-4" = nth_candidate "my-trailer" k
       ∧ (k = 0 ∧ "my-trailer-4" = "my-trailer"
          ∨ 0 < k ∧ "my-trailer-4" = "my-trailer" +:+ "-" +:+ pretty (S k)).
Proof.
  apply (allocated_slug_is_candidate (getVideoBySlug demo) 3 "my-trailer"
           busy_world "my-trailer-4"
           (snd (allocate (getVideoBySlug demo) 3 "my-trailer" busy_world))).
  by vm_compute.
Defined.

(** X2. In server.js the slug of an upload is never empty, and it is made of
    lowercase letters, digits and hyphens whenever the slugified title is:
    the fallback token and the suffixes the loop appends add nothing else. *)
Theorem server_slug_url_safe :
  ∀ {A} slugify title (probe : string → M (option A)) fuel w s w',
    url_safe (slugify title) = true →
    allocate probe fuel (base_token slugify title) w = (Val s, w') →
    s ≠ "" ∧ url_safe s = true.
Proof.
  intros A slugify title probe fuel w s w' Hsafe Hl.
  apply allocate_shape in Hl as (k & _ & ->). split.
  - apply nth_candidate_nonempty, base_token_nonempty.
  - apply nth_candidate_url_safe. unfold base_token.
    by destruct (JS.truthy (slugify title)).
Qed.

Lemma server_slug_url_safe_witness :
  "video-2" ≠ "" ∧ url_safe "video-2" = true.
Proof.
  apply (server_slug_url_safe slugify_ascii "?!" (taken_probe {["video"]}) 4
           empty_world "video-2" empty_world); by vm_compute.
Defined.

(** ** The probes of the allocator *)

Section ProbeTrace.
Variable d : deployment.

Lemma getVideoBySlug_trace s w r w' :
  getVideoBySlug d s w = (r, w') →
  rows w' = rows w ∧ next_id w' = next_id w ∧ blobs w' = blobs w
  ∧ clock w' = clock w ∧ calls w' = calls w ++ [SelectSlug s].
Proof.
  unfold getVideoBySlug, bind, await, Supabase.select_slug, Supabase.remote.
  destruct (link d _); simpl; intros [= <- <-]; done.
Qed.

Lemma slug_loop_trace base fuel :
  ∀ i slug_ e w r w',
    slug_loop (getVideoBySlug d) base fuel slug_ e i w = (r, w') →
    rows w' = rows w ∧ next_id w' = next_id w ∧ blobs w' = blobs w
    ∧ clock w' = clock w
    ∧ ∃ m, m ≤ fuel
           ∧ calls w'
             = calls w ++ ((λ j, SelectSlug (candidate base j)) <$> seq i m).
Proof.
  induction fuel as [|fuel IH]; intros i slug_ e w r w' Hl.
  - destruct e as [a|]; simpl in Hl; injection Hl as <- <-;
      repeat (split; [done|]); exists 0; by rewrite app_nil_r.
  - destruct e as [a|]; simpl in Hl.
    2: { injection Hl as <- <-. repeat (split; [done|]).
         exists 0. split; [lia|]. by rewrite app_nil_r. }
    unfold bind in Hl.
    destruct (getVideoBySlug d (candidate base i) w) as [r1 w1] eqn:Hg.
    apply getVideoBySlug_trace in Hg as (Hr & Hn & Hb & Hc & Hcalls).
    destruct r1 as [e'|err|].
    + apply IH in Hl as (Hr' & Hn' & Hb' & Hc' & m & Hm & Hcalls').
      rewrite Hr', Hn', Hb', Hc', Hcalls', Hcalls.
      repeat (split; [done|]). exists (S m). split; [lia|].
      simpl. by rewrite <- app_assoc.
    + injection Hl as <- <-. repeat (split; [done|]).
      exists 1. split; [lia | done].
    + injection Hl as <- <-. repeat (split; [done|]).
      exists 1. split; [lia | done].
Qed.

Lemma nth_candidate_seq {B} (f : string → B) base a m :
  (λ k, f (nth_candidate base k)) <$> seq (S a) m
  = (λ j, f (candidate base j)) <$> seq (S (S a)) m.
Proof.
  revert a. induction m as [|m IH]; intros a; [done|].
  simpl. by rewrite <- IH.
Qed.

Lemma allocate_trace base fuel w r w' :
  allocate (getVideoBySlug d) fuel base w = (r, w') →
  rows w' = rows w ∧ next_id w' = next_id w ∧ blobs w' = blobs w
  ∧ clock w' = clock w
  ∧ ∃ n, 0 < n ≤ S fuel
         ∧ calls w'
           = calls w ++ ((λ k, SelectSlug (nth_candidate base k)) <$> seq 0 n).
Proof.
  unfold allocate, bind. intros Hl.
  destruct (getVideoBySlug d base w) as [r1 w1] eqn:Hg.
  apply getVideoBySlug_trace in Hg as (Hr & Hn & Hb & Hc & Hcalls).
  destruct r1 as [e|err|].
  - apply slug_loop_trace in Hl as (Hr' & Hn' & Hb' & Hc' & m & Hm & Hcalls').
    rewrite Hr', Hn', Hb', Hc', Hcalls', Hcalls.
    repeat (split; [done|]). exists (S m). split; [lia|].
    simpl. rewrite <- app_assoc. simpl. by rewrite nth_candidate_seq.
  - injection Hl as <- <-. repeat (split; [done|]).
    exists 1. split; [lia | done].
  - injection Hl as <- <-. repeat (split; [done|]).
    exists 1. split; [lia | done].
Qed.

End ProbeTrace.

(** X3. The allocation of the upload route only reads: whatever the link
    does and however the loop ends, it leaves the table, the bucket and the
    clock as they were, and its remote calls are lookups of the candidates
    base, base-2, base-3, ... in that order, at least one and at most one
    more than the iterations allowed. *)
Theorem allocation_probes_read_only :
  ∀ d base fuel w r w',
    allocate (getVideoBySlug d) fuel base w = (r, w') →
    rows w' = rows w ∧ next_id w' = next_id w ∧ blobs w' = blobs w
    ∧ clock w' = clock w
    ∧ ∃ n, 0 < n ≤ S fuel
           ∧ calls w'
             = calls w
               ++ ((λ k, SelectSlug (nth_candidate base k)) <$> seq 0 n).
Proof.
  intros d base fuel w r w' Ha.
  destruct (allocate_trace d base fuel w r w' Ha)
    as (Hrows & Hid & Hblobs & Hclock & n & Hn & Hcalls).
  repeat (split; [done|]). by exists n.
Qed.

Lemma allocation_probes_read_only_witness :
  ∃ n, 0 < n ≤ 4
       ∧ calls (snd (allocate (getVideoBySlug demo) 3 "my-trailer" busy_world))
         = calls busy_world
           ++ ((λ k, SelectSlug (nth_candidate "my-trailer" k)) <$> seq 0 n).
Proof.
  apply (allocation_probes_read_only demo "my-trailer" 3 busy_world
           (fst (allocate (getVideoBySlug demo) 3 "my-trailer" busy_world))
           (snd (allocate (getVideoBySlug demo) 3 "my-trailer" busy_world))).
  by vm_compute.
Defined.

(** ** What an upload does *)

Section UploadOutcome.
Variable d : deployment.
Variable mime_extension : string → option string.
Variable getPublicUrl : string → string.
Variable encodeURIComponent : string → string.

Lemma upload_single_accepts req f :
  upload_single req = Next (Some f) →
  video req = Some f ∧ mimetype f ∈ allowed_types
  ∧ (file_size f ≤ 314572800)%N.
Proof.
  unfold upload_single. destruct (video req) as [f'|]; [|discriminate].
  case_bool_decide as Ht; [|discriminate].
  destruct (_ <? _)%N eqn:Hs; [discriminate|].
  intros [= ->]. apply N.ltb_ge in Hs. done.
Qed.

Lemma upload_handler_outcome base fuel req file w r w' :
  upload_handler d mime_extension getPublicUrl encodeURIComponent
    base fuel req file w = (r, w') →
  (∃ t f slug_ w1,
     form_title req = Some t ∧ t ≠ "" ∧ file = Some f
     ∧ allocate (getVideoBySlug d) fuel (base t) w = (Val slug_, w1)
     ∧ r = Val (Redirect 302 (upload_location encodeURIComponent req))
     ∧ rows w' = rows w ++ [stored_row mime_extension getPublicUrl w req t f slug_]
     ∧ next_id w' = (next_id w + 1)%N
     ∧ blobs w'
       = <[file_path (stored_row mime_extension getPublicUrl w req t f slug_) := content f]> (blobs w)
     ∧ calls w'
       = calls w1 ++ [BlobUpload (file_path (stored_row mime_extension getPublicUrl w req t f slug_));
                      InsertRow slug_])
  ∨ (rows w' = rows w ∧ next_id w' = next_id w
     ∧ (r = OutOfFuel ∨ ∃ body, r = Val (Send 400 body))).
Proof.
  unfold upload_handler, try_catch. intros Hh.
  destruct (form_title req) as [t|];
    [|injection Hh as <- <-; right; by eauto].
  destruct file as [f|]; [|injection Hh as <- <-; right; by eauto].
  destruct (JS.truthy t) eqn:Ht; [|injection Hh as <- <-; right; by eauto].
  apply truthy_true in Ht.
  unfold bind at 1 in Hh.
  destruct (allocate (getVideoBySlug d) fuel (base t) w) as [ra w1] eqn:Ha.
  destruct (allocate_trace d _ _ _ _ _ Ha) as (Hr1 & Hn1 & Hb1 & Hc1 & _).
  destruct ra as [slug_ | err | ].
  2: { injection Hh as <- <-. right. simpl. by eauto. }
  2: { injection Hh as <- <-. right. by eauto. }
  unfold now, bind at 1 in Hh. unfold readFile in Hh.
  destruct (tmp_readable d); unfold bind at 1, ret, throw in Hh.
  2: { injection Hh as <- <-. right. simpl. by eauto. }
  unfold bind at 1, await in Hh.
  unfold Supabase.storage_upload, Supabase.remote in Hh.
  destruct (link d (List.length (calls w1))); simpl in Hh.
  2: { injection Hh as <- <-. right. simpl. by eauto. }
  2: { injection Hh as <- <-. right. simpl. by eauto. }
  unfold insertVideo, Supabase.table_insert, Supabase.remote, await, bind in Hh.
  simpl in Hh.
  destruct (link d _); simpl in Hh.
  2: { injection Hh as <- <-. right. simpl. by eauto. }
  2: { injection Hh as <- <-. right. simpl. by eauto. }
  destruct (slug_unique d && _); simpl in Hh.
  { injection Hh as <- <-. right. simpl. by eauto. }
  injection Hh as <- <-. left. exists t, f, slug_, w1.
  unfold stored_row, storage_path. simpl.
  rewrite Hr1, Hn1, Hb1, Hc1. rewrite <- app_assoc. done.
Qed.

Lemma upload_route_outcome base fuel req w r w' :
  upload_route d mime_extension getPublicUrl encodeURIComponent
    base fuel req w = (r, w') →
  (∃ t f slug_ w1,
     checkAdmin d req = true
     ∧ form_title req = Some t ∧ t ≠ ""
     ∧ video req = Some f ∧ mimetype f ∈ allowed_types
     ∧ (file_size f ≤ 314572800)%N
     ∧ allocate (getVideoBySlug d) fuel (base t) w = (Val slug_, w1)
     ∧ r = Val (Redirect 302 (upload_location encodeURIComponent req))
     ∧ rows w' = rows w ++ [stored_row mime_extension getPublicUrl w req t f slug_]
     ∧ next_id w' = (next_id w + 1)%N
     ∧ blobs w'
       = <[file_path (stored_row mime_extension getPublicUrl w req t f slug_) := content f]> (blobs w)
     ∧ calls w'
       = calls w1 ++ [BlobUpload (file_path (stored_row mime_extension getPublicUrl w req t f slug_));
                      InsertRow slug_])
  ∨ (rows w' = rows w ∧ next_id w' = next_id w
     ∧ ∀ location, r ≠ Val (Redirect 302 location)).
Proof.
  unfold upload_route. intros Hu.
  destruct (checkAdmin d req) eqn:Hc;
    [|injection Hu as <- <-; right; by repeat split].
  destruct (upload_single req) as [file | e | rep] eqn:Hm.
  - apply upload_handler_outcome in Hu
      as [(t & f & slug_ & w1 & Ht & Hne & -> & Ha & -> & Hrest)
         | (Hr & Hn & Hrep)].
    + left. exists t, f, slug_, w1.
      destruct (upload_single_accepts req f Hm) as (Hv & Hty & Hsz).
      repeat (split; [done|]). done.
    + right. repeat (split; [done|]).
      intros loc ->. destruct Hrep as [? | [body ?]]; discriminate.
  - injection Hu as <- <-. right. by repeat split.
  - unfold upload_single in Hm. repeat case_match; discriminate.
Qed.

End UploadOutcome.

Section UploadFailures.
Variable d : deployment.
Variable mime_extension : string → option string.
Variable getPublicUrl : string → string.
Variable encodeURIComponent : string → string.

Lemma upload_blob_failure base fuel req w t f slug_ w1 e :
  checkAdmin d req = true →
  form_title req = Some t → t ≠ "" →
  upload_single req = Next (Some f) →
  tmp_readable d = true →
  allocate (getVideoBySlug d) fuel (base t) w = (Val slug_, w1) →
  link d (List.length (calls w1)) = Failing e
  ∨ link d (List.length (calls w1)) = Rejecting e →
  upload_route d mime_extension getPublicUrl encodeURIComponent
    base fuel req w
  = (Val (Send 400 (error_text e)),
     console_error (printed e)
       (record_call
          (BlobUpload
             (file_path (stored_row mime_extension getPublicUrl
                           w req t f slug_))) w1)).
Proof.
  intros Hc Ht Hne Hm Htmp Ha Hl.
  destruct (allocate_trace d _ _ _ _ _ Ha) as (_ & _ & _ & Hclock & _).
  unfold upload_route. rewrite Hc, Hm.
  unfold upload_handler, try_catch. rewrite Ht.
  rewrite (proj2 (truthy_true t) Hne).
  unfold bind at 1. rewrite Ha.
  unfold now, bind at 1. unfold readFile. rewrite Htmp.
  unfold bind at 1, ret. unfold bind at 1, await.
  unfold Supabase.storage_upload, Supabase.remote.
  unfold stored_row, storage_path. simpl. rewrite Hclock.
  by destruct Hl as [-> | ->].
Qed.

End UploadFailures.

(** X4. An upload either stores exactly one row or leaves the table alone.
    It redirects only in the first case, to the admin page with the key of
    the query or, failing that, of the form, and then the guard had passed, the
    title was not empty, the file had a listed type and at most 314572800
    bytes, the slug is the one the allocator returned, the row is appended
    with the next id, the trimmed form fields, the path
    trailers/<now>_<slug>.<ext> and the public url of that path, the bytes
    are in the bucket under that path, and the blob was written before the
    row.  Every other reply leaves rows and ids as they were. *)
Theorem upload_stores_one_row_or_none :
  ∀ d mime_extension getPublicUrl encodeURIComponent base fuel req w r w',
    upload_route d mime_extension getPublicUrl encodeURIComponent
      base fuel req w = (r, w') →
    (∃ t f slug_ w1,
       checkAdmin d req = true
       ∧ form_title req = Some t ∧ t ≠ ""
       ∧ video req = Some f ∧ mimetype f ∈ allowed_types
       ∧ (file_size f ≤ 314572800)%N
       ∧ allocate (getVideoBySlug d) fuel (base t) w = (Val slug_, w1)
       ∧ r = Val (Redirect 302 (upload_location encodeURIComponent req))
       ∧ rows w'
         = rows w ++ [stored_row mime_extension getPublicUrl w req t f slug_]
       ∧ next_id w' = (next_id w + 1)%N
       ∧ blobs w'
         = <[file_path (stored_row mime_extension getPublicUrl w req t f slug_)
             := content f]> (blobs w)
       ∧ calls w'
         = calls w1
           ++ [BlobUpload (file_path (stored_row mime_extension getPublicUrl
                                        w req t f slug_));
               InsertRow slug_])
    ∨ (rows w' = rows w ∧ next_id w' = next_id w
       ∧ ∀ location, r ≠ Val (Redirect 302 location)).
Proof.
  intros d me gp enc base fuel req w r w' Hrun.
  destruct (upload_route_outcome d me gp enc base fuel req w r w' Hrun)
    as [Hstored | Hnone]; [by left | by right].
Qed.

(** An upload authorized by the header, with another key among the form
    fields and a padded title, stores its row; the redirect carries the
    form's key. *)
Lemma upload_stores_one_row_or_none_witness :
  ∃ w', upload_route demo mime_extension_std publicUrl_demo (λ k, k)
          (base_token slugify_ascii) 0 header_upload empty_world
        = (Val (Redirect 302 "/admin?key=abc"), w')
        ∧ rows w'
          = [Row 1 1700000000000 "my-trailer" "My Trailer!" "teaser"
               "trailers/1700000000000_my-trailer.webm"
               (publicUrl_demo "trailers/1700000000000_my-trailer.webm") ""].
Proof.
  pose (out := upload_route demo mime_extension_std publicUrl_demo (λ k, k)
                 (base_token slugify_ascii) 0 header_upload empty_world).
  destruct (upload_stores_one_row_or_none demo mime_extension_std
              publicUrl_demo (λ k, k) (base_token slugify_ascii) 0
              header_upload empty_world (fst out) (snd out))
    as [(t & f & slug_ & w1 & _ & Ht & _ & Hv & _ & _ & Ha & Hr & Hrows & _)
       | (_ & _ & Hno)]; [by vm_compute | | ].
  - injection Ht as <-. injection Hv as <-.
    vm_compute in Ha. injection Ha as <- <-.
    exists (snd out). split.
    + apply injective_projections; [exact Hr | reflexivity].
    + rewrite Hrows. by vm_compute.
  - exfalso. apply (Hno "/admin?key=abc"). by vm_compute.
Defined.

(** X5. When the row insert fails after the blob was stored, the upload
    answers 400 with the error's text and logs it; the table is unchanged
    and the blob stays in the bucket with no row for it.  Nothing removes
    it. *)
Theorem upload_insert_failure_orphans_blob :
  ∀ d mime_extension getPublicUrl encodeURIComponent base fuel req w
    t f slug_ w1 e,
    checkAdmin d req = true →
    form_title req = Some t → t ≠ "" →
    upload_single req = Next (Some f) →
    tmp_readable d = true →
    allocate (getVideoBySlug d) fuel (base t) w = (Val slug_, w1) →
    link d (List.length (calls w1)) = Up →
    link d (S (List.length (calls w1))) = Failing e
    ∨ link d (S (List.length (calls w1))) = Rejecting e →
    ∃ w',
      upload_route d mime_extension getPublicUrl encodeURIComponent
        base fuel req w
      = (Val (Send 400 (error_text e)), w')
      ∧ rows w' = rows w
      ∧ blobs w'
        = <[file_path (stored_row mime_extension getPublicUrl w req t f slug_)
            := content f]> (blobs w)
      ∧ calls w'
        = calls w1
          ++ [BlobUpload (file_path (stored_row mime_extension getPublicUrl
                                       w req t f slug_));
              InsertRow slug_]
      ∧ console w' = console w1 ++ [printed e].
Proof.
  intros d mime_extension getPublicUrl encodeURIComponent base fuel req w
    t f slug_ w1 e Hc Ht Hne Hm Htmp Ha Hup Hl.
  destruct (allocate_trace d _ _ _ _ _ Ha) as (Hr1 & _ & Hb1 & Hclock & _).
  unfold upload_route. rewrite Hc, Hm.
  unfold upload_handler, try_catch. rewrite Ht.
  rewrite (proj2 (truthy_true t) Hne).
  unfold bind at 1. rewrite Ha.
  unfold now, bind at 1. unfold readFile. rewrite Htmp.
  unfold bind at 1, ret. unfold bind at 1, await.
  unfold Supabase.storage_upload, Supabase.remote.
  rewrite Hup. simpl.
  unfold insertVideo, Supabase.table_insert, Supabase.remote, await, bind.
  simpl. rewrite length_app. simpl. rewrite Nat.add_1_r.
  unfold stored_row, storage_path. simpl. rewrite <- Hclock, <- Hr1, <- Hb1.
  destruct Hl as [-> | ->]; simpl; eexists; (split; [done|]); simpl;
    repeat split; try done; by rewrite <- ?app_assoc.
Qed.

Lemma upload_insert_failure_orphans_blob_witness :
  ∃ w',
    upload_route insert_down mime_extension_std publicUrl_demo (λ k, k)
      (base_token slugify_ascii) 0 scenario_upload empty_world
    = (Val (Send 400 "TypeError: fetch failed"), w')
    ∧ rows w' = []
    ∧ blobs w' !! "trailers/1700000000000_my-trailer.mp4" = Some "...".
Proof.
  destruct (upload_insert_failure_orphans_blob insert_down mime_extension_std
              publicUrl_demo (λ k, k) (base_token slugify_ascii) 0
              scenario_upload empty_world "My Trailer!"
              (FilePart "video/mp4" 1000 "...") "my-trailer"
              (record_call (SelectSlug "my-trailer") empty_world)
              timeout_error)
    as (w' & Hrun & Hrows & Hblobs & _);
    [reflexivity | reflexivity | discriminate | reflexivity | reflexivity
    | by vm_compute | reflexivity | by left |].
  exists w'. split; [exact Hrun|]. split; [exact Hrows|].
  rewrite Hblobs. by vm_compute.
Defined.

(** X6. When the blob upload fails, by a reported error or a rejected
    promise, the upload answers 400 with the error's text and logs it, and
    the insert is not attempted: the blob upload is the last remote call,
    and table and bucket are unchanged. *)
Theorem upload_blob_failure_skips_insert :
  ∀ d mime_extension getPublicUrl encodeURIComponent base fuel req w
    t f slug_ w1 e,
    checkAdmin d req = true →
    form_title req = Some t → t ≠ "" →
    upload_single req = Next (Some f) →
    tmp_readable d = true →
    allocate (getVideoBySlug d) fuel (base t) w = (Val slug_, w1) →
    link d (List.length (calls w1)) = Failing e
    ∨ link d (List.length (calls w1)) = Rejecting e →
    ∃ w',
      upload_route d mime_extension getPublicUrl encodeURIComponent
        base fuel req w
      = (Val (Send 400 (error_text e)), w')
      ∧ rows w' = rows w ∧ blobs w' = blobs w
      ∧ calls w'
        = calls w1
          ++ [BlobUpload (file_path (stored_row mime_extension getPublicUrl
                                       w req t f slug_))]
      ∧ console w' = console w1 ++ [printed e].
Proof.
  intros d me gp enc base fuel req w t f slug_ w1 e Hc Ht Hne Hm Htmp Ha Hl.
  destruct (allocate_trace d _ _ _ _ _ Ha) as (Hr1 & _ & Hb1 & _ & _).
  eexists. split; [by eapply upload_blob_failure|].
  simpl. by rewrite Hr1, Hb1.
Qed.

Lemma upload_blob_failure_skips_insert_witness :
  ∃ w',
    upload_route upload_down mime_extension_std publicUrl_demo (λ k, k)
      (base_token slugify_ascii) 0 scenario_upload empty_world
    = (Val (Send 400 "TypeError: fetch failed"), w')
    ∧ rows w' = [] ∧ blobs w' = ∅
    ∧ calls w' = [SelectSlug "my-trailer";
                  BlobUpload "trailers/1700000000000_my-trailer.mp4"].
Proof.
  destruct (upload_blob_failure_skips_insert upload_down mime_extension_std
              publicUrl_demo (λ k, k) (base_token slugify_ascii) 0
              scenario_upload empty_world "My Trailer!"
              (FilePart "video/mp4" 1000 "...") "my-trailer"
              (record_call (SelectSlug "my-trailer") empty_world)
              timeout_error)
    as (w' & Hrun & Hrows & Hblobs & Hcalls & _);
    [reflexivity | reflexivity | discriminate | reflexivity | reflexivity
    | by vm_compute | by left |].
  exists w'. split; [exact Hrun|]. split; [exact Hrows|].
  split; [exact Hblobs|]. rewrite Hcalls. by vm_compute.
Defined.

(** ** What a delete does *)

Section DeleteOutcome.
Variable d : deployment.
Variable encodeURIComponent : string → string.

Lemma filter_slug_absent s (l : list row) :
  s ∉ slug <$> l → filter (λ r, slug r = s) l = [].
Proof.
  intros Hn. destruct (filter _ l) as [|r l'] eqn:Hf; [done|].
  exfalso. apply Hn.
  assert (r ∈ filter (λ r, slug r = s) l) as Hr by (rewrite Hf; left).
  apply list_elem_of_filter in Hr as [<- Hin]. by apply list_elem_of_fmap_2.
Qed.

Lemma filter_slug_unique s (l : list row) :
  NoDup (slug <$> l) → s ∈ slug <$> l →
  ∃ r, filter (λ r, slug r = s) l = [r] ∧ r ∈ l ∧ slug r = s.
Proof.
  induction l as [|r l IH]; intros Hnd Hin; [by apply not_elem_of_nil in Hin|].
  rewrite fmap_cons in Hnd, Hin. apply NoDup_cons in Hnd as [Hr Hnd].
  rewrite filter_cons. destruct (decide (slug r = s)) as [Heq | Hne].
  - exists r. rewrite filter_slug_absent by (by rewrite <- Heq).
    split; [done|]. split; [left | done].
  - apply elem_of_cons in Hin as [Hin | Hin]; [by symmetry in Hin|].
    destruct (IH Hnd Hin) as (r' & Hf & Hr' & Hs).
    exists r'. split; [done|]. split; [by right | done].
Qed.

Lemma filter_other_slug s (l : list row) :
  s ∉ slug <$> filter (λ r, slug r ≠ s) l.
Proof.
  intros Hin. apply list_elem_of_fmap in Hin as (r & -> & Hr).
  by apply list_elem_of_filter in Hr as [Hne _].
Qed.

Lemma delete_handler_failure s req w e :
  link d (List.length (calls w)) = Failing e
  ∨ link d (List.length (calls w)) = Rejecting e →
  delete_handler d encodeURIComponent s req w
  = (Val (Send 400 "Gagal hapus"),
     console_error (printed e) (record_call (DeleteSlug s) w)).
Proof.
  intros Hl.
  unfold delete_handler, try_catch, bind, deleteVideoBySlug, bind, await,
    Supabase.table_delete, Supabase.remote.
  by destruct Hl as [-> | ->].
Qed.

Lemma delete_handler_existing s req w r :
  link d (List.length (calls w)) = Up →
  filter (λ r, slug r = s) (rows w) = [r] → file_path r ≠ "" →
  ∃ w',
    delete_handler d encodeURIComponent s req w
    = (Val (Redirect 302 (admin_location encodeURIComponent req)), w')
    ∧ rows w' = filter (λ r, slug r ≠ s) (rows w)
    ∧ next_id w' = next_id w
    ∧ calls w' = calls w ++ [DeleteSlug s; BlobRemove (file_path r)]
    ∧ (link d (S (List.length (calls w))) = Up →
       blobs w' = delete (file_path r) (blobs w))
    ∧ (link d (S (List.length (calls w))) ≠ Up → blobs w' = blobs w).
Proof.
  intros Hup Hf Hp.
  unfold delete_handler, try_catch, bind, deleteVideoBySlug, bind, await,
    Supabase.table_delete, Supabase.remote.
  rewrite Hup. simpl. rewrite Hf. simpl.
  rewrite (proj2 (truthy_true _) Hp).
  unfold await_ignoring, Supabase.storage_remove, Supabase.remote. simpl.
  rewrite length_app. simpl. rewrite Nat.add_1_r.
  eexists. split; [done|].
  destruct (link d (S (List.length (calls w)))); simpl;
    repeat split; try done; by rewrite <- ?app_assoc.
Qed.

End DeleteOutcome.

(** X7. Deleting a slug that no row carries is not an error: over a link
    that is up the delete route redirects to the admin page as for a real
    delete, and nothing changes but the trace, which gains the row delete
    and no blob removal. *)
Theorem delete_absent_slug_redirects :
  ∀ d encodeURIComponent s req w,
    link d (List.length (calls w)) = Up → s ∉ slugs w →
    delete_handler d encodeURIComponent s req w
    = (Val (Redirect 302 (admin_location encodeURIComponent req)),
       record_call (DeleteSlug s) w).
Proof.
  intros d encodeURIComponent s req w Hup Hn.
  unfold delete_handler, try_catch, bind, deleteVideoBySlug, bind, await,
    Supabase.table_delete, Supabase.remote.
  rewrite Hup. simpl. by rewrite filter_slug_absent.
Qed.

Lemma delete_absent_slug_redirects_witness :
  delete_handler demo (λ k, k) "ghost" (delete_request "secret" "ghost")
    busy_world
  = (Val (Redirect 302 "/admin?key=secret"),
     record_call (DeleteSlug "ghost") busy_world).
Proof.
  apply (delete_absent_slug_redirects demo (λ k, k) "ghost"
           (delete_request "secret" "ghost") busy_world).
  - reflexivity.
  - by_decide.
Defined.

(** X8. When the row delete fails, by a reported error or a rejected
    promise, the delete route answers 400 with the fixed text "Gagal hapus",
    logs the error, and attempts no blob removal: table and bucket are
    unchanged. *)
Theorem delete_failure_answers_400 :
  ∀ d encodeURIComponent s req w e,
    link d (List.length (calls w)) = Failing e
    ∨ link d (List.length (calls w)) = Rejecting e →
    ∃ w',
      delete_handler d encodeURIComponent s req w
      = (Val (Send 400 "Gagal hapus"), w')
      ∧ rows w' = rows w ∧ blobs w' = blobs w
      ∧ calls w' = calls w ++ [DeleteSlug s]
      ∧ console w' = console w ++ [printed e].
Proof.
  intros d enc s req w e Hl. eexists.
  split; [by apply delete_handler_failure|]. done.
Qed.

Lemma delete_failure_answers_400_witness :
  ∃ w',
    delete_handler link_down (λ k, k) "my-trailer"
      (delete_request "secret" "my-trailer") busy_world
    = (Val (Send 400 "Gagal hapus"), w')
    ∧ rows w' = rows busy_world ∧ blobs w' = blobs busy_world
    ∧ calls w' = calls busy_world ++ [DeleteSlug "my-trailer"]
    ∧ console w' = console busy_world ++ [printed timeout_error].
Proof.
  apply (delete_failure_answers_400 link_down (λ k, k) "my-trailer"
           (delete_request "secret" "my-trailer") busy_world timeout_error).
  by left.
Defined.

(** X9. In a table with pairwise distinct slugs, deleting a stored slug over
    a link that is up for the row delete removes exactly that row: the other
    rows stay, in order; the blob removal is attempted for the row's path and
    takes the blob away when the link is still up; and a lookup of the slug
    afterwards finds nothing. *)
Theorem delete_then_lookup_absent :
  ∀ d encodeURIComponent s req w,
    NoDup (slugs w) → s ∈ slugs w →
    (∀ r, r ∈ rows w → file_path r ≠ "") →
    link d (List.length (calls w)) = Up →
    ∃ r w',
      r ∈ rows w ∧ slug r = s
      ∧ delete_handler d encodeURIComponent s req w
        = (Val (Redirect 302 (admin_location encodeURIComponent req)), w')
      ∧ rows w' = filter (λ r, slug r ≠ s) (rows w)
      ∧ (s ∉ slugs w')
      ∧ calls w' = calls w ++ [DeleteSlug s; BlobRemove (file_path r)]
      ∧ (link d (S (List.length (calls w))) = Up →
         blobs w' = delete (file_path r) (blobs w))
      ∧ (link d (List.length (calls w')) = Up →
         fst (getVideoBySlug d s w') = Val None).
Proof.
  intros d enc s req w Hnd Hin Hpaths Hup.
  destruct (filter_slug_unique s (rows w) Hnd Hin) as (r & Hf & Hr & Hs).
  destruct (delete_handler_existing d enc s req w r Hup Hf (Hpaths r Hr))
    as (w' & Hrun & Hrows & Hn & Hcalls & Hblob & _).
  assert (s ∉ slugs w') as Hgone.
  { unfold slugs. rewrite Hrows. apply filter_other_slug. }
  exists r, w'. repeat (split; [done|]).
  intros Hup'. by rewrite getVideoBySlug_absent.
Qed.

Lemma delete_then_lookup_absent_witness :
  ∃ r w',
    r ∈ rows busy_world ∧ slug r = "my-trailer-2"
    ∧ delete_handler demo (λ k, k) "my-trailer-2"
        (delete_request "secret" "my-trailer-2") busy_world
      = (Val (Redirect 302 "/admin?key=secret"), w')
    ∧ rows w' = filter (λ r, slug r ≠ "my-trailer-2") (rows busy_world)
    ∧ ("my-trailer-2" ∉ slugs w')
    ∧ calls w' = calls busy_world
                 ++ [DeleteSlug "my-trailer-2"; BlobRemove (file_path r)]
    ∧ (link demo (S (List.length (calls busy_world))) = Up →
       blobs w' = delete (file_path r) (blobs busy_world))
    ∧ (link demo (List.length (calls w')) = Up →
       fst (getVideoBySlug demo "my-trailer-2" w') = Val None).
Proof.
  apply (delete_then_lookup_absent demo (λ k, k) "my-trailer-2"
           (delete_request "secret" "my-trailer-2") busy_world).
  - by_decide.
  - by_decide.
  - intros r Hr. apply (Forall_forall (λ r, file_path r ≠ "") (rows busy_world));
      [|exact Hr]. by_decide.
  - reflexivity.
Defined.

(** ** Round trip of an upload *)

Section UploadRoundTrip.
Variable d : deployment.
Variable slugify : string → string.
Variable mime_extension : string → option string.
Variable getPublicUrl : string → string.
Variable encodeURIComponent : string → string.

Lemma lookup_appended (l : list row) r :
  slug r ∉ slug <$> l →
  head (filter (λ r', slug r' = slug r) (l ++ [r])) = Some r.
Proof.
  intros Hn. rewrite filter_app, filter_slug_absent by done.
  simpl. rewrite filter_cons. by rewrite decide_True.
Qed.

Lemma getVideoBySlug_appended w w' r :
  link d (List.length (calls w')) = Up →
  rows w' = rows w ++ [r] → slug r ∉ slugs w →
  fst (getVideoBySlug d (slug r) w') = Val (Some r).
Proof.
  intros Hup Hrows Hn.
  unfold getVideoBySlug, bind, await, Supabase.select_slug, Supabase.remote.
  rewrite Hup. simpl. rewrite Hrows. by rewrite lookup_appended.
Qed.

Lemma allocate_fresh base fuel w s w1 :
  reliable d →
  allocate (getVideoBySlug d) fuel base w = (Val s, w1) → s ∉ slugs w.
Proof.
  intros Hup Ha.
  destruct (allocate_outcome d base fuel w) as (r & w2 & Ha' & _ & Hfresh).
  rewrite Ha in Ha'. injection Ha' as <- <-. by apply Hfresh.
Qed.

End UploadRoundTrip.

(** X10. Round trip.  Over a link that answers every call, after an upload
    that redirected, the last row of the table is the row of that upload:
    its slug was free before, its title is the trimmed form title, its url
    is the public url of its file path, the bucket holds the uploaded bytes
    under that path, a lookup of the slug returns this very row, and the
    watch route renders it. *)
Theorem upload_then_lookup_round_trip :
  ∀ d slugify mime_extension getPublicUrl encodeURIComponent base fuel req w
    location w',
    reliable d →
    upload_route d mime_extension getPublicUrl encodeURIComponent
      base fuel req w = (Val (Redirect 302 location), w') →
    ∃ r t f,
      form_title req = Some t ∧ video req = Some f
      ∧ rows w' = rows w ++ [r]
      ∧ (slug r ∉ slugs w)
      ∧ title r = JS.trim t
      ∧ url r = getPublicUrl (file_path r)
      ∧ blobs w' !! file_path r = Some (content f)
      ∧ fst (getVideoBySlug d (slug r) w') = Val (Some r)
      ∧ ∀ fuel' req',
          req_route req' = Watch (slug r) →
          fst (routes d slugify mime_extension getPublicUrl
                 encodeURIComponent fuel' req' w')
          = Val (Render "watch" [r]).
Proof.
  intros d sl me gp enc base fuel req w loc w' Hup Hrun.
  destruct (upload_route_outcome d me gp enc base fuel req w _ _ Hrun)
    as [(t & f & slug_ & w1 & _ & Ht & _ & Hv & _ & _ & Ha & _ & Hrows & _
         & Hblobs & _) | (_ & _ & Hno)]; [|by destruct (Hno loc)].
  pose proof (allocate_fresh d (base t) fuel w slug_ w1 Hup Ha) as Hfresh.
  assert (fst (getVideoBySlug d slug_ w')
          = Val (Some (stored_row me gp w req t f slug_))) as Hget.
  { apply (getVideoBySlug_appended d w w' (stored_row me gp w req t f slug_));
      done. }
  exists (stored_row me gp w req t f slug_), t, f.
  repeat (split; [done|]).
  split; [by rewrite Hblobs, lookup_insert_eq|].
  split; [done|].
  intros fuel' req' Hr. unfold routes. rewrite Hr. unfold bind. simpl.
  simpl in Hget. destruct (getVideoBySlug d slug_ w') as [rg wg].
  simpl in Hget. by subst rg.
Qed.

Lemma upload_then_lookup_round_trip_witness :
  ∃ r t f,
    form_title scenario_upload = Some t ∧ video scenario_upload = Some f
    ∧ rows (snd (upload_route demo mime_extension_std publicUrl_demo (λ k, k)
                   (base_token slugify_ascii) 3 scenario_upload busy_world))
      = rows busy_world ++ [r]
    ∧ (slug r ∉ slugs busy_world)
    ∧ title r = JS.trim t
    ∧ url r = publicUrl_demo (file_path r)
    ∧ blobs (snd (upload_route demo mime_extension_std publicUrl_demo
                    (λ k, k) (base_token slugify_ascii) 3 scenario_upload
                    busy_world)) !! file_path r = Some (content f)
    ∧ fst (getVideoBySlug demo (slug r)
             (snd (upload_route demo mime_extension_std publicUrl_demo
                     (λ k, k) (base_token slugify_ascii) 3 scenario_upload
                     busy_world))) = Val (Some r)
    ∧ ∀ fuel' req',
        req_route req' = Watch (slug r) →
        fst (routes demo slugify_ascii mime_extension_std publicUrl_demo
               (λ k, k) fuel' req'
               (snd (upload_route demo mime_extension_std publicUrl_demo
                       (λ k, k) (base_token slugify_ascii) 3 scenario_upload
                       busy_world)))
        = Val (Render "watch" [r]).
Proof.
  apply (upload_then_lookup_round_trip demo slugify_ascii mime_extension_std
           publicUrl_demo (λ k, k) (base_token slugify_ascii) 3
           scenario_upload busy_world "/admin?key=secret").
  - intros n. reflexivity.
  - by vm_compute.
Defined.

(** ** Who can write *)

Section ReadOnly.
Variable d : deployment.

Lemma read_only_refl w : read_only w w.
Proof.
  repeat (split; [done|]). exists []. by rewrite app_nil_r.
Qed.

Lemma read_only_trans w1 w2 w3 :
  read_only w1 w2 → read_only w2 w3 → read_only w1 w3.
Proof.
  intros (Hr & Hn & Hb & l & Hc & Hl) (Hr' & Hn' & Hb' & l' & Hc' & Hl').
  split; [congruence|]. split; [congruence|]. split; [congruence|].
  exists (l ++ l'). split; [by rewrite Hc', Hc, app_assoc|].
  by apply Forall_app.
Qed.

Lemma getVideoBySlug_read_only s w :
  read_only w (snd (getVideoBySlug d s w)).
Proof.
  destruct (getVideoBySlug d s w) as [r w'] eqn:Hg.
  apply getVideoBySlug_trace in Hg as (Hr & Hn & Hb & _ & Hc).
  repeat (split; [done|]). exists [SelectSlug s]. split; [done|].
  by repeat constructor.
Qed.

Lemma select_ordered_read_only column w :
  read_only w (snd (await (Supabase.select_ordered d column) w)).
Proof.
  unfold await, Supabase.select_ordered, Supabase.remote.
  destruct (link d _); simpl; repeat case_bool_decide; simpl;
    repeat (split; [done|]); exists [SelectOrdered column];
    (split; [done|]); by repeat constructor.
Qed.

Lemma readVideos_read_only w : read_only w (snd (readVideos d w)).
Proof.
  unfold readVideos, try_catch, bind.
  pose proof (select_ordered_read_only "created_at" w) as H1.
  destruct (await (Supabase.select_ordered d "created_at") w) as [r w1].
  simpl in H1. destruct r as [res | err | ]; [done | | done].
  pose proof (select_ordered_read_only "id" w1) as H2.
  destruct (await (Supabase.select_ordered d "id") w1) as [r2 w2].
  simpl in H2. destruct r2; simpl; by eapply read_only_trans.
Qed.

Lemma bind_ret_snd {A B} (m : M A) (f : A → B) w :
  snd (bind m (λ a, ret (f a)) w) = snd (m w).
Proof. unfold bind. by destruct (m w) as [[a|e|] w']. Qed.

End ReadOnly.

(** X11. Only an authorized upload or delete can write.  For every request,
    either nothing was written while it was served (table and bucket are
    unchanged and every remote call made was a lookup), or the request
    passed the host filter and the admin guard and went to the upload or the
    delete route.  The public pages and the admin page never write. *)
Theorem writes_need_authorization :
  ∀ d slugify mime_extension getPublicUrl encodeURIComponent fuel req w,
    read_only w
      (snd (app d slugify mime_extension getPublicUrl encodeURIComponent
              fuel req w))
    ∨ (HostFilter.passes (ALLOWED_HOSTS d) req = true
       ∧ checkAdmin d req = true
       ∧ (req_route req = AdminUpload ∨ ∃ s, req_route req = AdminDelete s)).
Proof.
  intros d sl me gp enc fuel req w. unfold app.
  destruct (HostFilter.passes (ALLOWED_HOSTS d) req);
    [|left; apply read_only_refl].
  unfold routes, upload_route.
  destruct (req_route req) as [ | s | | | s | | | ].
  - left. rewrite bind_ret_snd. apply readVideos_read_only.
  - left. unfold bind.
    pose proof (getVideoBySlug_read_only d s w) as Hg.
    destruct (getVideoBySlug d s w) as [[[r|]|e|] w1]; exact Hg.
  - left. destruct (checkAdmin d req); [|apply read_only_refl].
    rewrite bind_ret_snd. apply readVideos_read_only.
  - destruct (checkAdmin d req); [right; by eauto|].
    left. apply read_only_refl.
  - destruct (checkAdmin d req); [right; by eauto|].
    left. apply read_only_refl.
  - left. apply read_only_refl.
  - left. apply read_only_refl.
  - left. apply read_only_refl.
Qed.

(** ** More on the host filter *)

Section HostCase.

Lemma lower_char_colon c :
  bool_decide (JS.lower_char c = ":"%char) = bool_decide (c = ":"%char).
Proof. by destruct c as [[] [] [] [] [] [] [] []]; vm_compute. Qed.

Lemma fmap_rev {A B} (f : A → B) (l : list A) :
  f <$> rev l = rev (f <$> l).
Proof.
  induction l as [|x l IH]; [done|]. simpl.
  by rewrite fmap_app, IH.
Qed.

Lemma length_chars s : List.length (JS.chars s) = String.length s.
Proof. induction s as [|c s IH]; [done|]. simpl. by rewrite IH. Qed.

Lemma toLowerCase_of_chars l :
  JS.toLowerCase (JS.of_chars l) = JS.of_chars (JS.lower_char <$> l).
Proof. unfold JS.toLowerCase. by rewrite chars_of_chars. Qed.

Lemma split_go_lower cur l :
  JS.split_go ":" (JS.lower_char <$> cur) (JS.lower_char <$> l)
  = JS.toLowerCase <$> JS.split_go ":" cur l.
Proof.
  revert cur. induction l as [|c l IH]; intros cur; simpl.
  - by rewrite toLowerCase_of_chars, fmap_rev.
  - rewrite lower_char_colon. case_bool_decide; simpl.
    + rewrite toLowerCase_of_chars, fmap_rev. f_equal. apply (IH []).
    + apply (IH (c :: cur)).
Qed.

Lemma split_first_lower s :
  JS.split_first ":" (JS.toLowerCase s)
  = JS.toLowerCase (JS.split_first ":" s).
Proof.
  unfold JS.split_first, JS.split, JS.toLowerCase at 1.
  rewrite chars_of_chars.
  pose proof (split_go_lower [] (JS.chars s)) as Hgo. simpl in Hgo.
  rewrite Hgo. by destruct (JS.split_go ":" [] (JS.chars s)).
Qed.

Lemma effective_host_lower_first req :
  HostFilter.effective_host req
  = JS.split_first ":"
      (JS.toLowerCase
         (JS.or_empty (JS.or_else (x_forwarded_host req) (host req)))).
Proof. unfold HostFilter.effective_host. by rewrite split_first_lower. Qed.

Lemma wildcard_excludes_apex suffix :
  HostFilter.pattern_matches suffix ("*." +:+ suffix) = false.
Proof.
  apply not_true_is_false. intros Hm.
  apply wildcard_matches in Hm as [pre Hpre].
  apply (f_equal JS.chars) in Hpre. rewrite chars_app in Hpre.
  apply (f_equal List.length) in Hpre. rewrite length_app in Hpre.
  change (JS.chars ("." +:+ suffix)) with ("."%char :: JS.chars suffix) in Hpre.
  simpl in Hpre. lia.
Qed.

Lemma ALLOW_entries RAW_HOSTS p :
  p ∈ HostFilter.ALLOW RAW_HOSTS → p ≠ "" ∧ JS.toLowerCase p = p.
Proof.
  unfold HostFilter.ALLOW. intros Hp.
  apply list_elem_of_filter in Hp as [Ht Hp].
  apply list_elem_of_fmap in Hp as (s & -> & _). split.
  - apply truthy_true. by apply Is_true_true.
  - apply toLowerCase_idemp.
Qed.

End HostCase.

(** X12. The host filter does not look at the case of the host: two
    requests whose host values (the forwarded host when present and not
    empty, the host header otherwise) agree up to case have the same
    effective host and get the same decision, whatever the configured
    list. *)
Theorem host_filter_ignores_case :
  ∀ ALLOWED_HOSTS req req',
    JS.toLowerCase (JS.or_empty (JS.or_else (x_forwarded_host req) (host req)))
    = JS.toLowerCase
        (JS.or_empty (JS.or_else (x_forwarded_host req') (host req'))) →
    HostFilter.effective_host req = HostFilter.effective_host req'
    ∧ HostFilter.passes ALLOWED_HOSTS req = HostFilter.passes ALLOWED_HOSTS req'.
Proof.
  intros A req req' Heq.
  assert (HostFilter.effective_host req = HostFilter.effective_host req') as He
    by (by rewrite !effective_host_lower_first, Heq).
  split; [done|]. unfold HostFilter.passes. by rewrite He.
Qed.

Lemma host_filter_ignores_case_witness :
  HostFilter.effective_host upper_host_request
  = HostFilter.effective_host lower_host_request
  ∧ HostFilter.passes "*.example.com" upper_host_request
    = HostFilter.passes "*.example.com" lower_host_request.
Proof.
  apply (host_filter_ignores_case "*.example.com" upper_host_request
           lower_host_request).
  by vm_compute.
Defined.

(** X13. A wildcard pattern does not cover the bare domain: the host
    [suffix] itself never matches the pattern [*.suffix], and a host that
    matches is strictly longer than [suffix]. *)
Theorem wildcard_pattern_excludes_apex :
  (∀ suffix, HostFilter.pattern_matches suffix ("*." +:+ suffix) = false)
  ∧ (∀ suffix h,
       HostFilter.pattern_matches h ("*." +:+ suffix) = true →
       String.length suffix < String.length h).
Proof.
  split; [exact wildcard_excludes_apex|].
  intros suffix h Hm. apply wildcard_matches in Hm as [pre ->].
  rewrite <- !length_chars, !chars_app, !length_app.
  change (JS.chars ".") with ["."%char]. simpl. lia.
Qed.

Lemma wildcard_pattern_excludes_apex_witness :
  String.length "example.com" < String.length "cdn.example.com".
Proof.
  apply (proj2 wildcard_pattern_excludes_apex "example.com" "cdn.example.com").
  by vm_compute.
Defined.

(** X14. The patterns the filter compares against are never empty and are
    in lower case.  So a value of ALLOWED_HOSTS that holds separators and
    white space but no host installs the filter with an empty list, and
    every request is then answered 403. *)
Theorem host_list_entries_and_lockout :
  (∀ RAW_HOSTS p,
     p ∈ HostFilter.ALLOW RAW_HOSTS → p ≠ "" ∧ JS.toLowerCase p = p)
  ∧ (∀ d slugify mime_extension getPublicUrl encodeURIComponent fuel req w,
       JS.trim (ALLOWED_HOSTS d) ≠ "" →
       HostFilter.ALLOW (JS.trim (ALLOWED_HOSTS d)) = [] →
       app d slugify mime_extension getPublicUrl encodeURIComponent fuel req w
       = (Val (Send 403 "Forbidden host"), w)).
Proof.
  split; [exact ALLOW_entries|].
  intros d sl me gp enc fuel req w Hraw Hempty.
  apply app_forbidden_host. unfold HostFilter.passes.
  rewrite (proj2 (truthy_true _) Hraw), Hempty. done.
Qed.

Lemma host_list_entries_and_lockout_witness :
  app commas_only slugify_ascii mime_extension_std publicUrl_demo (λ k, k) 0
    lower_host_request busy_world
  = (Val (Send 403 "Forbidden host"), busy_world).
Proof.
  apply (proj2 host_list_entries_and_lockout commas_only slugify_ascii
           mime_extension_std publicUrl_demo (λ k, k) 0 lower_host_request
           busy_world); by vm_compute.
Defined.

(** ** Trimming *)

Section TrimFacts.

Lemma drop_ws_clean l : starts_clean JS.is_ws (JS.drop_ws l).
Proof.
  induction l as [|c l IH]; [done|]. simpl.
  by destruct (JS.is_ws c) eqn:Hc.
Qed.

Lemma drop_ws_id l : starts_clean JS.is_ws l → JS.drop_ws l = l.
Proof. destruct l as [|c l]; [done|]. simpl. by intros ->. Qed.

Lemma drop_ws_suffix l : ∃ k, l = k ++ JS.drop_ws l.
Proof.
  induction l as [|c l [k IH]]; [by exists []|]. simpl.
  destruct (JS.is_ws c).
  - exists (c :: k). simpl. by rewrite <- IH.
  - by exists [].
Qed.

Lemma starts_clean_prefix {A} (skip : A → bool) (x y : list A) :
  starts_clean skip (x ++ y) → starts_clean skip x.
Proof. by destruct x. Qed.

Lemma trim_chars s :
  starts_clean JS.is_ws (JS.chars (JS.trim s))
  ∧ starts_clean JS.is_ws (rev (JS.chars (JS.trim s))).
Proof.
  unfold JS.trim. rewrite chars_of_chars, rev_involutive.
  split; [|apply drop_ws_clean].
  destruct (drop_ws_suffix (rev (JS.drop_ws (JS.chars s)))) as [k Hk].
  apply (f_equal (@rev ascii)) in Hk.
  rewrite rev_involutive, rev_app_distr in Hk.
  apply (starts_clean_prefix _ _ (rev k)). rewrite <- Hk.
  apply drop_ws_clean.
Qed.

Lemma trim_idemp s : JS.trim (JS.trim s) = JS.trim s.
Proof.
  destruct (trim_chars s) as [Hfront Hback].
  unfold JS.trim at 1.
  rewrite (drop_ws_id _ Hfront), (drop_ws_id _ Hback), rev_involutive.
  apply of_chars_chars.
Qed.

End TrimFacts.

(** X15. The guard trims the supplied key but not the configured one.  A
    request is admitted only if the configured key is its own trimmed form;
    an ADMIN_KEY that starts or ends with white space therefore locks every
    request out, whatever key it brings. *)
Theorem padded_admin_key_locks_out :
  ∀ d req,
    JS.trim (ADMIN_KEY d) ≠ ADMIN_KEY d → checkAdmin d req = false.
Proof.
  intros d req Hpad. apply not_true_is_false. intros Hc.
  apply checkAdmin_spec in Hc as [_ Hkey]. apply Hpad.
  rewrite <- Hkey. unfold supplied_key. apply trim_idemp.
Qed.

Lemma padded_admin_key_locks_out_witness :
  checkAdmin padded_key padded_query = false.
Proof.
  apply (padded_admin_key_locks_out padded_key). by vm_compute.
Defined.

(** ** The base URL *)

Section BaseUrl.

Lemma drop_slashes_clean l :
  starts_clean (λ c, bool_decide (c = "/"%char)) (drop_slashes l).
Proof.
  induction l as [|c l IH]; [done|]. simpl.
  by destruct (bool_decide (c = "/"%char)) eqn:Hc.
Qed.

Lemma drop_slashes_suffix l :
  ∃ n, l = replicate n "/"%char ++ drop_slashes l.
Proof.
  induction l as [|c l [n IH]]; [by exists 0|]. simpl.
  case_bool_decide as Hc.
  - exists (S n). simpl. by rewrite <- IH, Hc.
  - by exists 0.
Qed.

Lemma rev_replicate {A} n (x : A) : rev (replicate n x) = replicate n x.
Proof.
  induction n as [|n IH]; [done|]. simpl. rewrite IH.
  clear IH. induction n as [|n IH]; [done|]. simpl. by rewrite IH.
Qed.

Lemma BASE_URL_strips env :
  ∃ n, JS.or_empty env = BASE_URL env +:+ JS.of_chars (replicate n "/"%char).
Proof.
  unfold BASE_URL.
  destruct (drop_slashes_suffix (rev (JS.chars (JS.or_empty env)))) as [n Hn].
  exists n. apply chars_inj.
  rewrite chars_app, !chars_of_chars.
  apply (f_equal (@rev ascii)) in Hn.
  rewrite rev_involutive, rev_app_distr, rev_replicate in Hn. done.
Qed.

Lemma BASE_URL_no_trailing_slash env : JS.endsWith (BASE_URL env) "/" = false.
Proof.
  apply not_true_is_false. intros He.
  apply endsWith_spec in He as [pre Hpre].
  apply (f_equal JS.chars) in Hpre. rewrite chars_app in Hpre.
  unfold BASE_URL in Hpre. rewrite chars_of_chars in Hpre.
  apply (f_equal (@rev ascii)) in Hpre.
  rewrite rev_involutive, rev_app_distr in Hpre. simpl in Hpre.
  pose proof (drop_slashes_clean (rev (JS.chars (JS.or_empty env)))) as Hc.
  rewrite Hpre in Hc. by vm_compute in Hc.
Qed.

End BaseUrl.

(** X16. BASE_URL is the configured value without its trailing slashes: the
    configured value is BASE_URL followed by slashes only, and BASE_URL does
    not end in a slash.  When it is not empty, the share link of a video is
    BASE_URL, then /watch/, then the slug; when it is empty (unset, or made
    of slashes only) the link is built from the request's protocol and
    host. *)
Theorem base_url_without_trailing_slashes :
  ∀ env,
    (∃ n, JS.or_empty env
          = BASE_URL env +:+ JS.of_chars (replicate n "/"%char))
    ∧ JS.endsWith (BASE_URL env) "/" = false
    ∧ (∀ protocol req v,
         BASE_URL env ≠ "" →
         shareUrl (BASE_URL env) protocol req v
         = BASE_URL env +:+ "/watch/" +:+ slug v)
    ∧ (∀ protocol req v,
         BASE_URL env = "" →
         shareUrl (BASE_URL env) protocol req v
         = protocol +:+ "://" +:+ interpolate (host req)
           +:+ "/watch/" +:+ slug v).
Proof.
  intros env. split; [apply BASE_URL_strips|].
  split; [apply BASE_URL_no_trailing_slash|]. split.
  - intros protocol req v Hne. unfold shareUrl, site_baseUrl.
    by rewrite (proj2 (truthy_true _) Hne).
  - intros protocol req v He. unfold shareUrl, site_baseUrl.
    rewrite He. simpl. apply chars_inj. by rewrite !chars_app, <- !app_assoc.
Qed.

Lemma base_url_without_trailing_slashes_witness :
  shareUrl (BASE_URL (Some "https://portal.example//")) "http"
    lower_host_request (trailer 1 300 "my-trailer")
  = "https://portal.example/watch/my-trailer"
  ∧ shareUrl (BASE_URL (Some "///")) "http"
      lower_host_request (trailer 1 300 "my-trailer")
    = "http://cdn.example.com:8443/watch/my-trailer".
Proof.
  split.
  - rewrite (proj1 (proj2 (proj2 (base_url_without_trailing_slashes
                                    (Some "https://portal.example//"))))
               "http" lower_host_request (trailer 1 300 "my-trailer"));
      by vm_compute.
  - rewrite (proj2 (proj2 (proj2 (base_url_without_trailing_slashes
                                    (Some "///"))))
               "http" lower_host_request (trailer 1 300 "my-trailer"));
      by vm_compute.
Defined.

(** ** Listing *)

Section Listing.
Variable d : deployment.

Lemma place_desc_perm key r l : Supabase.place_desc key r l ≡ₚ r :: l.
Proof.
  induction l as [|r' l IH]; [done|]. simpl.
  destruct (key r' <=? key r)%N; [done|].
  rewrite IH. apply Permutation_swap.
Qed.

Lemma order_desc_perm key l : Supabase.order_desc key l ≡ₚ l.
Proof.
  unfold Supabase.order_desc. induction l as [|r l IH]; [done|].
  simpl. by rewrite place_desc_perm, IH.
Qed.

Lemma place_desc_HdRel (key : row → N) a r l :
  HdRel (λ x y, (key y ≤ key x)%N) a l → (key r ≤ key a)%N →
  HdRel (λ x y, (key y ≤ key x)%N) a (Supabase.place_desc key r l).
Proof.
  intros Hl Hr. destruct l as [|r' l]; simpl; [by constructor|].
  destruct (key r' <=? key r)%N; constructor; [done|].
  by apply HdRel_inv in Hl.
Qed.

Lemma place_desc_sorted (key : row → N) r l :
  Sorted (λ x y, (key y ≤ key x)%N) l →
  Sorted (λ x y, (key y ≤ key x)%N) (Supabase.place_desc key r l).
Proof.
  induction 1 as [|r' l Hs IH Hhd]; simpl; [by repeat constructor|].
  destruct (key r' <=? key r)%N eqn:Hle.
  - apply N.leb_le in Hle. constructor; [by constructor|]. by constructor.
  - apply N.leb_gt in Hle. constructor; [done|].
    apply place_desc_HdRel; [done | lia].
Qed.

Lemma order_desc_sorted (key : row → N) l :
  Sorted (λ x y, (key y ≤ key x)%N) (Supabase.order_desc key l).
Proof.
  unfold Supabase.order_desc. induction l as [|r l IH]; simpl;
    [constructor | by apply place_desc_sorted].
Qed.

Lemma readVideos_thrown w e :
  fst (readVideos d w) = Thrown e
  ↔ (∃ e0, link d (List.length (calls w)) = Rejecting e0)
    ∧ link d (S (List.length (calls w))) = Rejecting e.
Proof.
  unfold readVideos, try_catch, bind, await, Supabase.select_ordered,
    Supabase.remote.
  destruct (link d (List.length (calls w))) as [|e1|e1] eqn:H1; simpl.
  - repeat case_bool_decide; simpl; split; try done; by intros [[? ?] _].
  - split; [done|]. by intros [[? ?] _].
  - rewrite length_app. simpl. rewrite Nat.add_1_r.
    destruct (link d (S (List.length (calls w)))) as [|e2|e2]; simpl.
    + repeat case_bool_decide; simpl; split; try done; by intros [_ ?].
    + split; [done|]. by intros [_ ?].
    + split; [intros [= ->]; by eauto|]. by intros [_ [= ->]].
Qed.

Lemma readVideos_listed w :
  link d (List.length (calls w)) = Up →
  timestamp_column d = Some "created_at" →
  readVideos d w
  = (Val (Supabase.order_desc created_at (rows w)),
     record_call (SelectOrdered "created_at") w).
Proof.
  intros Hup Hcol.
  unfold readVideos, try_catch, bind, await, Supabase.select_ordered,
    Supabase.remote.
  rewrite Hup. simpl. by rewrite Hcol.
Qed.

Lemma readVideos_variant_listed w :
  link d (List.length (calls w)) = Up →
  link d (S (List.length (calls w))) = Up →
  fst (readVideos_variant d w)
  = Val (if bool_decide (timestamp_column d = Some "createdAt")
         then Supabase.order_desc created_at (rows w)
         else Supabase.order_desc id (rows w)).
Proof.
  intros Hup Hup2.
  unfold readVideos_variant, bind, await, Supabase.select_ordered,
    Supabase.remote.
  rewrite Hup. simpl. case_bool_decide; simpl; [done|].
  rewrite length_app. simpl. by rewrite Nat.add_1_r, Hup2.
Qed.

End Listing.

(** X17. readVideos of server.js fails only when the promises of both
    queries reject, and then with the second rejection; a reported error, a
    missing column or a single rejection gives a list.  So the home page
    stays unanswered only in that case. *)
Theorem readVideos_rejects_only_twice :
  (∀ d w e,
     fst (readVideos d w) = Thrown e
     ↔ (∃ e0, link d (List.length (calls w)) = Rejecting e0)
       ∧ link d (S (List.length (calls w))) = Rejecting e)
  ∧ (∀ d slugify mime_extension getPublicUrl encodeURIComponent fuel req w e,
       req_route req = Home →
       HostFilter.passes (ALLOWED_HOSTS d) req = true →
       (fst (app d slugify mime_extension getPublicUrl encodeURIComponent
               fuel req w) = Thrown e
        ↔ (∃ e0, link d (List.length (calls w)) = Rejecting e0)
          ∧ link d (S (List.length (calls w))) = Rejecting e)).
Proof.
  split; [exact readVideos_thrown|].
  intros d sl me gp enc fuel req w e Hr Hh.
  rewrite <- readVideos_thrown. unfold app, routes. rewrite Hh, Hr.
  unfold bind.
  destruct (readVideos d w) as [[l|e'|] w']; simpl;
    [split; intros [=] | split; intros [= ->]; done | split; intros [=]].
Qed.

Lemma readVideos_rejects_only_twice_witness :
  fst (app always_rejecting slugify_ascii mime_extension_std publicUrl_demo
         (λ k, k) 0 (blank Home) busy_world) = Thrown timeout_error
  ↔ (∃ e0, link always_rejecting (List.length (calls busy_world))
           = Rejecting e0)
    ∧ link always_rejecting (S (List.length (calls busy_world)))
      = Rejecting timeout_error.
Proof.
  apply (proj2 readVideos_rejects_only_twice always_rejecting slugify_ascii
           mime_extension_std publicUrl_demo (λ k, k) 0 (blank Home)
           busy_world timeout_error).
  - reflexivity.
  - reflexivity.
Defined.

(** X18. Over a link that is up, the list pages show every row of the table
    exactly once.  server.js, on a table that has the column created_at,
    returns the rows by decreasing created_at with one query; the variant
    returns them by decreasing timestamp when the table has the column
    createdAt and by decreasing id otherwise. *)
Theorem listing_shows_every_row :
  (∀ d w,
     link d (List.length (calls w)) = Up →
     timestamp_column d = Some "created_at" →
     ∃ l, readVideos d w
          = (Val l, record_call (SelectOrdered "created_at") w)
          ∧ l ≡ₚ rows w
          ∧ Sorted (λ x y, (created_at y ≤ created_at x)%N) l)
  ∧ (∀ d w,
       link d (List.length (calls w)) = Up →
       link d (S (List.length (calls w))) = Up →
       ∃ l, fst (readVideos_variant d w) = Val l
            ∧ l ≡ₚ rows w
            ∧ (timestamp_column d = Some "createdAt" →
               Sorted (λ x y, (created_at y ≤ created_at x)%N) l)
            ∧ (timestamp_column d ≠ Some "createdAt" →
               Sorted (λ x y, (id y ≤ id x)%N) l)).
Proof.
  split.
  - intros d w Hup Hcol. eexists.
    split; [exact (readVideos_listed d w Hup Hcol)|].
    split; [apply order_desc_perm | apply order_desc_sorted].
  - intros d w Hup Hup2. eexists.
    split; [exact (readVideos_variant_listed d w Hup Hup2)|].
    case_bool_decide as Hc.
    + split; [apply order_desc_perm|].
      split; [intros _; apply order_desc_sorted | done].
    + split; [apply order_desc_perm|].
      split; [done | intros _; apply order_desc_sorted].
Qed.

Lemma listing_shows_every_row_witness :
  ∃ l, readVideos demo busy_world
       = (Val l, record_call (SelectOrdered "created_at") busy_world)
       ∧ l ≡ₚ rows busy_world
       ∧ Sorted (λ x y, (created_at y ≤ created_at x)%N) l.
Proof.
  apply (proj1 listing_shows_every_row demo busy_world); reflexivity.
Defined.

(** ** When an upload succeeds *)

Section UploadSuccess.
Variable d : deployment.
Variable mime_extension : string → option string.
Variable getPublicUrl : string → string.
Variable encodeURIComponent : string → string.

Lemma allocate_answers base fuel w :
  reliable d → List.length (rows w) ≤ fuel →
  ∃ s w1, allocate (getVideoBySlug d) fuel base w = (Val s, w1)
          ∧ s ∉ slugs w.
Proof.
  intros Hup Hfuel.
  destruct (first_free_exists (list_to_set (slugs w)) base)
    as (k & Hk & Hfree & Hbefore).
  pose proof (size_list_to_set_le (slugs w)) as Hsz.
  unfold slugs in Hsz at 2. rewrite length_fmap in Hsz.
  destruct (allocate_store_exact d base k fuel w Hup) as (w1 & Ha & _).
  - lia.
  - intros Hin. apply Hfree. by apply elem_of_list_to_set.
  - intros j Hj. apply (elem_of_list_to_set (C := gset string)).
    by apply Hbefore.
  - exists (nth_candidate base k), w1. split; [done|].
    intros Hin. apply Hfree. by apply elem_of_list_to_set.
Qed.

End UploadSuccess.

(** X19. An upload succeeds whenever nothing stands in its way: over a link
    that answers every call, with a readable temporary file, a request that
    the guard admits, with a non-empty title and a file of a listed type
    below the size limit, is answered by the redirect, with fuel for one
    probe per row.  The redirect carries the key of the query or, failing
    that, of the form.  The title need not hold anything but white space:
    the check is made before trimming, so such a title is stored as the
    empty string. *)
Theorem upload_succeeds_when_services_answer :
  ∀ d mime_extension getPublicUrl encodeURIComponent base fuel req w t f,
    reliable d → tmp_readable d = true →
    checkAdmin d req = true →
    form_title req = Some t → t ≠ "" →
    video req = Some f → mimetype f ∈ allowed_types →
    (file_size f < 314572800)%N →
    List.length (rows w) ≤ fuel →
    ∃ w' r,
      upload_route d mime_extension getPublicUrl encodeURIComponent
        base fuel req w
      = (Val (Redirect 302 (upload_location encodeURIComponent req)), w')
      ∧ rows w' = rows w ++ [r]
      ∧ title r = JS.trim t
      ∧ (slug r ∉ slugs w).
Proof.
  intros d me gp enc base fuel req w t f Hup Htmp Hc Ht Hne Hv Hty Hsz Hfuel.
  assert (upload_single req = Next (Some f)) as Hm.
  { unfold upload_single. rewrite Hv. rewrite bool_decide_eq_true_2 by done.
    assert ((fileSize_limit <? file_size f)%N = false) as ->; [|done].
    apply N.ltb_ge. change fileSize_limit with 314572800%N. lia. }
  destruct (allocate_answers d (base t) fuel w Hup Hfuel)
    as (s & w1 & Ha & Hfresh).
  destruct (allocate_trace d _ _ _ _ _ Ha) as (Hr1 & Hn1 & _ & Hc1 & _).
  unfold upload_route. rewrite Hc, Hm.
  unfold upload_handler, try_catch. rewrite Ht.
  rewrite (proj2 (truthy_true t) Hne).
  unfold bind at 1. rewrite Ha.
  unfold now, bind at 1. unfold readFile. rewrite Htmp.
  unfold bind at 1, ret. unfold bind at 1, await.
  unfold Supabase.storage_upload, Supabase.remote.
  rewrite Hup. simpl.
  unfold insertVideo, Supabase.table_insert, Supabase.remote, await, bind.
  simpl. rewrite Hup. simpl.
  rewrite Hr1. rewrite bool_decide_eq_false_2 by done.
  rewrite andb_false_r. simpl.
  eexists _, _. split; [done|]. simpl. rewrite Hr1. done.
Qed.

(** An upload through the header, with another key in the form and a title
    of blanks: the redirect carries the form's key. *)
Lemma upload_succeeds_when_services_answer_witness :
  ∃ w' r,
    upload_route demo mime_extension_std publicUrl_demo (λ k, k)
      (base_token slugify_ascii) 3 blank_title_upload busy_world
    = (Val (Redirect 302 "/admin?key=abc"), w')
    ∧ rows w' = rows busy_world ++ [r]
    ∧ title r = JS.trim "   "
    ∧ (slug r ∉ slugs busy_world).
Proof.
  apply (upload_succeeds_when_services_answer demo mime_extension_std
           publicUrl_demo (λ k, k) (base_token slugify_ascii) 3
           blank_title_upload busy_world "   "
           (FilePart "video/ogg" 10 "...")).
  - intros n. reflexivity.
  - reflexivity.
  - reflexivity.
  - reflexivity.
  - discriminate.
  - reflexivity.
  - by_decide.
  - reflexivity.
  - simpl. lia.
Defined.

(** X20. The checks of the upload route apply in a fixed order.  A request
    the guard refuses is answered 403 whatever it carries.  Past the guard, a
    file of an unlisted type is answered through the built-in error handler
    even when the title is missing.  Only when the file part is absent or
    accepted does the handler's own check answer 400 for a missing or empty
    title or a missing file.  None of the three makes a remote call. *)
Theorem upload_checks_in_order :
  ∀ d mime_extension getPublicUrl encodeURIComponent base fuel req w,
    (checkAdmin d req = false →
     upload_route d mime_extension getPublicUrl encodeURIComponent
       base fuel req w
     = (Val (Send 403 "Forbidden: Admin key required"), w))
    ∧ (∀ f, checkAdmin d req = true → video req = Some f →
         mimetype f ∉ allowed_types →
         ∃ e,
           upload_route d mime_extension getPublicUrl encodeURIComponent
             base fuel req w
           = (Val (DefaultError 500 e), w))
    ∧ (∀ file, checkAdmin d req = true → upload_single req = Next file →
         JS.truthy_opt (form_title req) = false ∨ file = None →
         ∃ w',
           upload_route d mime_extension getPublicUrl encodeURIComponent
             base fuel req w
           = (Val (Send 400 "Judul & file wajib."), w')
           ∧ calls w' = calls w ∧ rows w' = rows w ∧ blobs w' = blobs w).
Proof.
  intros d me gp enc base fuel req w. split; [|split].
  - intros Hc. unfold upload_route. by rewrite Hc.
  - intros f Hc Hv Ht. eexists. unfold upload_route, upload_single.
    rewrite Hc, Hv. by rewrite bool_decide_eq_false_2.
  - intros file Hc Hm Hmiss. unfold upload_route. rewrite Hc, Hm.
    unfold upload_handler, try_catch.
    destruct (form_title req) as [t|]; [|by eexists].
    destruct file as [f|]; [|by eexists].
    destruct Hmiss as [Ht | Hf]; [|done].
    simpl in Ht. rewrite Ht. by eexists.
Qed.

Lemma upload_checks_in_order_witness :
  ∃ e,
    upload_route demo mime_extension_std publicUrl_demo (λ k, k)
      (base_token slugify_ascii) 3 untitled_png_upload busy_world
    = (Val (DefaultError 500 e), busy_world).
Proof.
  apply (proj1 (proj2 (upload_checks_in_order demo mime_extension_std
                         publicUrl_demo (λ k, k) (base_token slugify_ascii)
                         3 untitled_png_upload busy_world))
           (FilePart "image/png" 10 "png-bytes")).
  - reflexivity.
  - reflexivity.
  - by_decide.
Defined.
